(** * Guests microservice: registry handlers and the NATS event bridge

    A shallow embedding of [src/app.ts] (the gRPC handlers [checkInGuest],
    [getGuestByLastNameAndRoom], [incrementWifiLoginCount], the consumer loop
    of [subscribeToGuestEvents] and the [server.bindAsync] start-up callback).
    The repository holds a second copy of the file whose handlers make the
    same calls without the console lines; it is embedded as [Unlogged].

    Text is modelled as [string] (a sequence of bytes, UTF-8).  Case mapping
    is the ASCII one: bytes outside [A-Z] are left alone. *)

From Stdlib Require Import List String Ascii ZArith NArith Lia Bool DecimalString
  Permutation.
Import ListNotations.

Local Open Scope string_scope.
Local Open Scope Z_scope.

(** ** Strings *)

Definition is_upper (c : ascii) : bool :=
  let n := N_of_ascii c in ((65 <=? n) && (n <=? 90))%N.

Definition lower_ascii (c : ascii) : ascii :=
  if is_upper c then ascii_of_N (N_of_ascii c + 32) else c.

(** [String.prototype.toLowerCase] *)
Fixpoint toLowerCase (s : string) : string :=
  match s with
  | EmptyString => EmptyString
  | String c r => String (lower_ascii c) (toLowerCase r)
  end.

(** Two bytes that are the same letter up to ASCII case. *)
Definition same_letter (a b : ascii) : Prop := lower_ascii a = lower_ascii b.

(** [casing_variant s t]: [t] spells [s] with some letters in the other case. *)
Inductive casing_variant : string -> string -> Prop :=
| cv_nil : casing_variant EmptyString EmptyString
| cv_cons a b s t :
    same_letter a b -> casing_variant s t ->
    casing_variant (String a s) (String b t).

(** ** JavaScript values, as [JSON.parse] builds them *)

(** A number is kept as an exact decimal [m * 10^e] with [m] free of trailing
    zeros; no rounding to binary64 is applied. *)
#[warnings="-register-all"] Inductive JsValue : Type :=
| JUndefined
| JNull
| JBool (b : bool)
| JNumber (m e : Z)
| JString (s : string)
| JArray (items : list JsValue)
| JObject (members : list (string * JsValue)).

(** Values a JavaScript [throw] can carry in this program. *)
Inductive JsError : Type :=
| SyntaxError (message : string)
| TypeError (message : string)
| ExternalError (message : string).

(** Result of evaluating something that may throw (or of awaiting a promise
    that may reject). *)
Inductive Completion (A : Type) : Type :=
| Returned (a : A)
| Thrown (e : JsError).
Arguments Returned {A} a.
Arguments Thrown {A} e.

(** Own-property lookup in an object literal; a repeated key keeps the value
    written last, as [JSON.parse] does. *)
Fixpoint lookup_member (key : string) (members : list (string * JsValue))
  : option JsValue :=
  match members with
  | [] => None
  | (k, v) :: rest =>
      match lookup_member key rest with
      | Some v' => Some v'
      | None => if String.eqb k key then Some v else None
      end
  end.

(** Property read [v.key].  Reading from [undefined] or [null] throws a
    [TypeError]; primitives and arrays have none of the keys this program
    reads, so the read gives [undefined]. *)
Definition get_prop (v : JsValue) (key : string) : Completion JsValue :=
  match v with
  | JUndefined =>
      Thrown (TypeError ("Cannot read properties of undefined (reading '" ++ key ++ "')"))
  | JNull =>
      Thrown (TypeError ("Cannot read properties of null (reading '" ++ key ++ "')"))
  | JObject members =>
      match lookup_member key members with
      | Some x => Returned x
      | None => Returned JUndefined
      end
  | _ => Returned JUndefined
  end.

(** [v === "literal"] *)
Definition strict_eq_string (v : JsValue) (lit : string) : bool :=
  match v with
  | JString s => String.eqb s lit
  | _ => false
  end.

(** ** JSON.parse *)

Module Json.

Local Open Scope char_scope.

Definition is_ws (c : ascii) : bool :=
  (c =? " ") || (c =? "009") || (c =? "010") || (c =? "013").

Fixpoint skip_ws (s : list ascii) : list ascii :=
  match s with
  | c :: r => if is_ws c then skip_ws r else s
  | [] => []
  end.

Definition is_digit (c : ascii) : bool :=
  let n := N_of_ascii c in ((48 <=? n) && (n <=? 57))%N.

Definition digit_val (c : ascii) : Z := Z.of_N (N_of_ascii c - 48).

Fixpoint span_digits (s : list ascii) : list ascii * list ascii :=
  match s with
  | c :: r =>
      if is_digit c
      then let (d, r') := span_digits r in (c :: d, r')
      else ([], s)
  | [] => ([], [])
  end.

Definition digits_val (ds : list ascii) : Z :=
  fold_left (fun acc c => acc * 10 + digit_val c) ds 0.

Fixpoint strip10 (fuel : nat) (m e : Z) : Z * Z :=
  match fuel with
  | O => (m, e)
  | S f =>
      if Z.eqb m 0 then (0, 0)
      else if Z.eqb (m mod 10) 0 then strip10 f (m / 10) (e + 1)
      else (m, e)
  end.

Definition parse_fraction (s : list ascii) : option (list ascii * list ascii) :=
  match s with
  | c :: r =>
      if c =? "."
      then match span_digits r with
           | ([], _) => None
           | (fd, r') => Some (fd, r')
           end
      else Some ([], s)
  | [] => Some ([], [])
  end.

Definition parse_exponent (s : list ascii) : option (Z * list ascii) :=
  match s with
  | c :: r =>
      if (c =? "e") || (c =? "E")
      then
        let (sign, r1) :=
          match r with
          | d :: r' =>
              if d =? "+" then (1, r')
              else if d =? "-" then (-1, r')
              else (1, r)
          | [] => (1, r)
          end in
        match span_digits r1 with
        | ([], _) => None
        | (ed, r2) => Some (sign * digits_val ed, r2)
        end
      else Some (0, s)
  | [] => Some (0, [])
  end.

Definition parse_number (s : list ascii) : option (JsValue * list ascii) :=
  let (neg, s1) :=
    match s with
    | c :: r => if c =? "-" then (true, r) else (false, s)
    | [] => (false, s)
    end in
  match s1 with
  | c :: r =>
      if is_digit c then
        let (ip, s2) := if c =? "0" then ([c], r) else span_digits s1 in
        match parse_fraction s2 with
        | None => None
        | Some (fd, s3) =>
            match parse_exponent s3 with
            | None => None
            | Some (ex, s4) =>
                let m := digits_val (ip ++ fd)%list in
                let m' := if neg then - m else m in
                let (mn, en) :=
                  strip10 (List.length ip + List.length fd) m' (ex - Z.of_nat (List.length fd)) in
                Some (JNumber mn en, s4)
            end
        end
      else None
  | [] => None
  end.

Definition hex_val (c : ascii) : option N :=
  let n := N_of_ascii c in
  if ((48 <=? n) && (n <=? 57))%N then Some (n - 48)%N
  else if ((65 <=? n) && (n <=? 70))%N then Some (n - 55)%N
  else if ((97 <=? n) && (n <=? 102))%N then Some (n - 87)%N
  else None.

Definition hex4 (a b c d : ascii) : option N :=
  match hex_val a, hex_val b, hex_val c, hex_val d with
  | Some x, Some y, Some z, Some w => Some (((x * 16 + y) * 16 + z) * 16 + w)%N
  | _, _, _, _ => None
  end.

(** UTF-8 bytes of a code point (a lone surrogate is written as its
    three-byte form). *)
Definition utf8 (n : N) : list ascii :=
  (if n <? 128 then [ascii_of_N n]
   else if n <? 2048 then
     [ascii_of_N (192 + n / 64); ascii_of_N (128 + n mod 64)]
   else if n <? 65536 then
     [ascii_of_N (224 + n / 4096); ascii_of_N (128 + (n / 64) mod 64);
      ascii_of_N (128 + n mod 64)]
   else
     [ascii_of_N (240 + n / 262144); ascii_of_N (128 + (n / 4096) mod 64);
      ascii_of_N (128 + (n / 64) mod 64); ascii_of_N (128 + n mod 64)])%N.

Definition is_high_surrogate (n : N) : bool := ((55296 <=? n) && (n <=? 56319))%N.
Definition is_low_surrogate (n : N) : bool := ((56320 <=? n) && (n <=? 57343))%N.

(** Low half of a surrogate pair at the head of [s], if there is one. *)
Definition low_escape (s : list ascii) : option (N * list ascii) :=
  match s with
  | b :: u :: h1 :: h2 :: h3 :: h4 :: r =>
      if (b =? "\") && (u =? "u")
      then match hex4 h1 h2 h3 h4 with
           | Some lo => if is_low_surrogate lo then Some (lo, r) else None
           | None => None
           end
      else None
  | _ => None
  end.

Definition simple_escape (e : ascii) : option ascii :=
  if e =? "034" then Some "034"
  else if e =? "\" then Some "\"
  else if e =? "/" then Some "/"
  else if e =? "b" then Some "008"
  else if e =? "f" then Some "012"
  else if e =? "n" then Some "010"
  else if e =? "r" then Some "013"
  else if e =? "t" then Some "009"
  else None.

(** Body of a string literal, after the opening quote.  [fuel] bounds the
    number of characters and escapes read. *)
Fixpoint parse_string_body (fuel : nat) (s : list ascii) (acc : list ascii)
  : option (string * list ascii) :=
  match fuel with
  | O => None
  | S f =>
      match s with
      | [] => None
      | c :: r =>
          if c =? "034" then Some (string_of_list_ascii (rev acc), r)
          else if (N_of_ascii c <? 32)%N then None
          else if c =? "\" then
            match r with
            | [] => None
            | e :: r1 =>
                if e =? "u" then
                  match r1 with
                  | h1 :: h2 :: h3 :: h4 :: r2 =>
                      match hex4 h1 h2 h3 h4 with
                      | None => None
                      | Some cu =>
                          if is_high_surrogate cu then
                            match low_escape r2 with
                            | Some (lo, r3) =>
                                let cp := (65536 + (cu - 55296) * 1024 + (lo - 56320))%N in
                                parse_string_body f r3 (rev (utf8 cp) ++ acc)%list
                            | None => parse_string_body f r2 (rev (utf8 cu) ++ acc)%list
                            end
                          else parse_string_body f r2 (rev (utf8 cu) ++ acc)%list
                      end
                  | _ => None
                  end
                else
                  match simple_escape e with
                  | Some x => parse_string_body f r1 (x :: acc)
                  | None => None
                  end
            end
          else parse_string_body f r (c :: acc)
      end
  end.

Definition parse_string (s : list ascii) : option (string * list ascii) :=
  parse_string_body (S (List.length s)) s [].

Fixpoint strip_prefix (p s : list ascii) : option (list ascii) :=
  match p, s with
  | [], _ => Some s
  | a :: p', b :: s' => if a =? b then strip_prefix p' s' else None
  | _ :: _, [] => None
  end.

Definition parse_literal (s : list ascii) : option (JsValue * list ascii) :=
  match strip_prefix (list_ascii_of_string "true") s with
  | Some r => Some (JBool true, r)
  | None =>
      match strip_prefix (list_ascii_of_string "false") s with
      | Some r => Some (JBool false, r)
      | None =>
          match strip_prefix (list_ascii_of_string "null") s with
          | Some r => Some (JNull, r)
          | None => None
          end
      end
  end.

Fixpoint parse_value (fuel : nat) (s : list ascii) {struct fuel}
  : option (JsValue * list ascii) :=
  match fuel with
  | O => None
  | S f =>
      match skip_ws s with
      | [] => None
      | c :: r =>
          if c =? "{" then
            match skip_ws r with
            | d :: r' => if d =? "}" then Some (JObject [], r')
                         else parse_members f (d :: r') []
            | [] => None
            end
          else if c =? "[" then
            match skip_ws r with
            | d :: r' => if d =? "]" then Some (JArray [], r')
                         else parse_elements f (d :: r') []
            | [] => None
            end
          else if c =? "034" then
            match parse_string r with
            | Some (str, r') => Some (JString str, r')
            | None => None
            end
          else if (c =? "-") || is_digit c then parse_number (c :: r)
          else parse_literal (c :: r)
      end
  end
with parse_elements (fuel : nat) (s : list ascii) (acc : list JsValue)
       {struct fuel} : option (JsValue * list ascii) :=
  match fuel with
  | O => None
  | S f =>
      match parse_value f s with
      | None => None
      | Some (v, s1) =>
          match skip_ws s1 with
          | d :: s2 =>
              if d =? "," then parse_elements f s2 (v :: acc)
              else if d =? "]" then Some (JArray (rev (v :: acc)), s2)
              else None
          | [] => None
          end
      end
  end
with parse_members (fuel : nat) (s : list ascii) (acc : list (string * JsValue))
       {struct fuel} : option (JsValue * list ascii) :=
  match fuel with
  | O => None
  | S f =>
      match skip_ws s with
      | q :: s0 =>
          if q =? "034" then
            match parse_string s0 with
            | None => None
            | Some (key, s1) =>
                match skip_ws s1 with
                | colon :: s2 =>
                    if colon =? ":" then
                      match parse_value f s2 with
                      | None => None
                      | Some (v, s3) =>
                          match skip_ws s3 with
                          | d :: s4 =>
                              if d =? "," then parse_members f s4 ((key, v) :: acc)
                              else if d =? "}"
                                   then Some (JObject (rev ((key, v) :: acc)), s4)
                                   else None
                          | [] => None
                          end
                      end
                    else None
                | [] => None
                end
            end
          else None
      | [] => None
      end
  end.

(** [JSON.parse text]: [None] stands for the [SyntaxError] it throws. *)
Definition parse (text : string) : option JsValue :=
  let s := list_ascii_of_string text in
  match parse_value (2 * List.length s + 2) s with
  | Some (v, rest) =>
      match skip_ws rest with
      | [] => Some v
      | _ :: _ => None
      end
  | None => None
  end.

End Json.



(** The double-quote character, and a string literal as it is written in a
    JSON text. *)
Definition dquote : string := String "034" EmptyString.
Definition quoted (s : string) : string := dquote ++ s ++ dquote.

(** Decimal rendering of an integer inside a template literal. *)
Definition show_Z (n : Z) : string :=
  DecimalString.NilZero.string_of_int (Z.to_int n).

(** ** Records exchanged with the store and over gRPC *)

(** A row of the [guests] table. *)
Record Row : Type := mkRow {
  id : Z;
  first_name : string;
  last_name : string;
  room_number : Z;
  wifi_login_count : Z
}.

(** The [error] member of a supabase-js response. *)
Record PostgrestError : Type := mkPostgrestError {
  pg_message : string;
  pg_details : string;
  pg_hint : string;
  pg_code : string
}.

(** grpc-js [ServiceError]; [metadata] is the list of entries of a
    [Metadata] object. *)
Record ServiceError : Type := mkServiceError {
  name : string;
  message : string;
  code : Z;
  details : string;
  metadata : list (string * string)
}.

Record CheckInGuestRequest : Type := mkCheckInGuestRequest {
  ci_firstName : string;
  ci_lastName : string
}.

Record GetGuestRequest : Type := mkGetGuestRequest {
  gg_lastName : string;
  gg_roomNumber : Z
}.

Record IncrementWifiLoginCountRequest : Type := mkIncrementWifiLoginCountRequest {
  iw_lastName : string;
  iw_roomNumber : Z
}.

Record Guest : Type := mkGuest {
  g_id : Z;
  firstName : string;
  lastName : string;
  roomNumber : Z;
  wifiLoginCount : Z
}.

(** Second argument of a handler's [callback]. *)
Inductive Response : Type :=
| CheckInGuestResponse (roomNumber : Z)
| GuestResponse (guest : Guest)
| IncrementWifiLoginCountResponse (success : bool).

(** The error [getGuestByLastNameAndRoom] builds itself when [data] is
    empty. *)
Definition NoUserError : ServiceError :=
  {| name := "NoUserError";
     message := "No user found";
     code := 13;
     details := "No user found";
     metadata := [] |}.

(** ** Effects *)

Inductive Stream : Type := Stdout | Stderr.

(** Extra arguments printed by [console.log] / [console.error]. *)
Inductive LogArg : Type :=
| LogValue (v : JsValue)
| LogThrown (e : JsError)
| LogPostgrest (e : PostgrestError)
| LogService (e : ServiceError).

(** Every call the program makes on its surroundings, indexed by what the
    call gives back.

    - [GenerateRoomNumber] is [await generateRoomNumber()];
    - [GuestsInsert] is [supabase.from("guests").insert({...})], answering the
      response's [error];
    - [GuestsSelectSingle] is
      [supabase.from("guests").select("*").eq("last_name", _).eq("room_number", _).single()],
      answering the response's [data] and [error];
    - [RpcIncrementWifiLoginCount] is
      [supabase.rpc("increment_wifi_login_count", {...})];
    - [Callback] is the gRPC handler's [callback(error, value)];
    - [NatsConnect] is [await connect(...)], [NatsSubscribe] is
      [nc.subscribe(subject)];
    - [StartConsumer] is the launch of the detached [for await] loop;
    - [ClientIncrementWifiLoginCount] is
      [client.incrementWifiLoginCount(request, cb)]. *)
Inductive Eff : Type -> Type :=
| Console (st : Stream) (text : string) (args : list LogArg) : Eff unit
| GenerateRoomNumber : Eff (Completion Z)
| GuestsInsert (first_name last_name : string) (room_number : Z)
  : Eff (option PostgrestError)
| GuestsSelectSingle (last_name : string) (room_number : Z)
  : Eff (option Row * option PostgrestError)
| RpcIncrementWifiLoginCount (last_name_input : string) (room_number_input : Z)
  : Eff (option PostgrestError)
| Callback (error : option ServiceError) (value : option Response) : Eff unit
| NatsConnect : Eff (Completion unit)
| NatsSubscribe (subject : string) : Eff (Completion unit)
| StartConsumer (subject : string) : Eff unit
| ClientIncrementWifiLoginCount (lastName roomNumber : JsValue) : Eff unit.

(** Programs: a tree of calls ending in a value or a thrown error. *)
Inductive Prog (A : Type) : Type :=
| Ret (a : A)
| Throw (e : JsError)
| Vis (X : Type) (op : Eff X) (k : X -> Prog A).
Arguments Ret {A} a.
Arguments Throw {A} e.
Arguments Vis {A X} op k.

Fixpoint bind {A B : Type} (p : Prog A) (f : A -> Prog B) : Prog B :=
  match p with
  | Ret a => f a
  | Throw e => Throw e
  | Vis op k => Vis op (fun x => bind (k x) f)
  end.

(** [p.catch(h)] *)
Fixpoint catch {A : Type} (p : Prog A) (h : JsError -> Prog A) : Prog A :=
  match p with
  | Ret a => Ret a
  | Throw e => h e
  | Vis op k => Vis op (fun x => catch (k x) h)
  end.

Definition perform {X : Type} (op : Eff X) : Prog X := Vis op Ret.

Definition lift {A : Type} (c : Completion A) : Prog A :=
  match c with
  | Returned a => Ret a
  | Thrown e => Throw e
  end.

(** [await op]: a rejection becomes a throw at the await. *)
Definition await {X : Type} (op : Eff (Completion X)) : Prog X :=
  Vis op lift.

Declare Scope prog_scope.
Delimit Scope prog_scope with prog.
Bind Scope prog_scope with Prog.
Notation "x <- p ;; q" := (bind p (fun x => q))
  (at level 61, p at next level, right associativity) : prog_scope.
Notation "p ;; q" := (bind p (fun _ => q))
  (at level 61, right associativity) : prog_scope.
Local Open Scope prog_scope.

Definition console_log (text : string) (args : list LogArg) : Prog unit :=
  perform (Console Stdout text args).
Definition console_error (text : string) (args : list LogArg) : Prog unit :=
  perform (Console Stderr text args).

(** ** The gRPC handlers (first argument of [server.addService]) *)

Section Handlers.

(** [generateServiceError] is imported from [./utils], which is not among the
    sources: it is taken as a parameter. *)
Variable generateServiceError : PostgrestError -> ServiceError.

Definition checkInGuest (request : CheckInGuestRequest) : Prog unit :=
  console_log "Check-in request received" [] ;;
  let firstName := ci_firstName request in
  let lastName := ci_lastName request in
  roomNumber <- await GenerateRoomNumber ;;
  error <- perform (GuestsInsert (toLowerCase firstName) (toLowerCase lastName)
                                 roomNumber) ;;
  match error with
  | Some e =>
      console_error "Error in check-in process:" [LogPostgrest e] ;;
      perform (Callback (Some (generateServiceError e)) None)
  | None =>
      let response := CheckInGuestResponse roomNumber in
      perform (Callback None (Some response)) ;;
      console_log "Check-in response sent" []
  end.

Definition getGuestByLastNameAndRoom (request : GetGuestRequest) : Prog unit :=
  let lastName := gg_lastName request in
  let roomNumber := gg_roomNumber request in
  console_log "Get guest request received" [] ;;
  response <- perform (GuestsSelectSingle (toLowerCase lastName) roomNumber) ;;
  let (data, error) := response in
  match error with
  | Some e =>
      console_error "Error in get guest process:" [LogPostgrest e] ;;
      perform (Callback (Some (generateServiceError e)) None)
  | None =>
      match data with
      | None =>
          console_error "No user found" [] ;;
          perform (Callback (Some NoUserError) None)
      | Some row =>
          let guest :=
            {| g_id := id row;
               firstName := first_name row;
               lastName := last_name row;
               roomNumber := room_number row;
               wifiLoginCount := wifi_login_count row |} in
          perform (Callback None (Some (GuestResponse guest))) ;;
          console_log "Get guest response sent" []
      end
  end.

Definition incrementWifiLoginCount (request : IncrementWifiLoginCountRequest)
  : Prog unit :=
  console_log "Increment WiFi login count request received" [] ;;
  let lastName := iw_lastName request in
  let roomNumber := iw_roomNumber request in
  error <- perform (RpcIncrementWifiLoginCount (toLowerCase lastName) roomNumber) ;;
  match error with
  | Some e =>
      console_error "Error in increment WiFi login count process:" [LogPostgrest e] ;;
      perform (Callback (Some (generateServiceError e)) None)
  | None =>
      let response := IncrementWifiLoginCountResponse true in
      perform (Callback None (Some response)) ;;
      console_log "Increment WiFi login count response sent" []
  end.

End Handlers.

(** The handlers as the other copy of the file has them: the same calls
    on the allocator, the store and the callback, with no console lines. *)
Module Unlogged.
Section Handlers.

Variable generateServiceError : PostgrestError -> ServiceError.

Definition checkInGuest (request : CheckInGuestRequest) : Prog unit :=
  let firstName := ci_firstName request in
  let lastName := ci_lastName request in
  roomNumber <- await GenerateRoomNumber ;;
  error <- perform (GuestsInsert (toLowerCase firstName) (toLowerCase lastName)
                                 roomNumber) ;;
  match error with
  | Some e => perform (Callback (Some (generateServiceError e)) None)
  | None =>
      let response := CheckInGuestResponse roomNumber in
      perform (Callback None (Some response))
  end.

Definition getGuestByLastNameAndRoom (request : GetGuestRequest) : Prog unit :=
  let lastName := gg_lastName request in
  let roomNumber := gg_roomNumber request in
  response <- perform (GuestsSelectSingle (toLowerCase lastName) roomNumber) ;;
  let (data, error) := response in
  match error with
  | Some e => perform (Callback (Some (generateServiceError e)) None)
  | None =>
      match data with
      | None => perform (Callback (Some NoUserError) None)
      | Some row =>
          let guest :=
            {| g_id := id row;
               firstName := first_name row;
               lastName := last_name row;
               roomNumber := room_number row;
               wifiLoginCount := wifi_login_count row |} in
          perform (Callback None (Some (GuestResponse guest)))
      end
  end.

Definition incrementWifiLoginCount (request : IncrementWifiLoginCountRequest)
  : Prog unit :=
  let lastName := iw_lastName request in
  let roomNumber := iw_roomNumber request in
  error <- perform (RpcIncrementWifiLoginCount (toLowerCase lastName) roomNumber) ;;
  match error with
  | Some e => perform (Callback (Some (generateServiceError e)) None)
  | None =>
      let response := IncrementWifiLoginCountResponse true in
      perform (Callback None (Some response))
  end.

End Handlers.
End Unlogged.

(** ** The event bridge *)

Definition increment_tag : string := "increment.wifi.login.count".

(** [JSON.parse(sc.decode(msg.data))], on the decoded text of the message. *)
Definition JSON_parse (text : string) : Prog JsValue :=
  match Json.parse text with
  | Some v => Ret v
  | None => Throw (SyntaxError "JSON.parse: unexpected token")
  end.

(** Body of the [for await (const msg of sub)] loop. *)
Definition on_message (payload : string) : Prog unit :=
  guestData <- JSON_parse payload ;;
  console_log "Received guest update:" [LogValue guestData] ;;
  event <- lift (get_prop guestData "event") ;;
  if strict_eq_string event increment_tag then
    data <- lift (get_prop guestData "data") ;;
    lastName <- lift (get_prop data "lastName") ;;
    data' <- lift (get_prop guestData "data") ;;
    roomNumber <- lift (get_prop data' "roomNumber") ;;
    perform (ClientIncrementWifiLoginCount lastName roomNumber)
  else Ret tt.

(** The detached [(async () => { for await ... })()], run over the messages
    the subscription delivers, in delivery order. *)
Fixpoint consume (messages : list string) : Prog unit :=
  match messages with
  | [] => Ret tt
  | msg :: rest => on_message msg ;; consume rest
  end.

(** Completion callback handed to [client.incrementWifiLoginCount]. *)
Definition incrementWifiLoginCount_done (error : option ServiceError) : Prog unit :=
  match error with
  | Some e => console_error "Failed to increment WiFi login count:" [LogService e]
  | None => console_log "WiFi login count incremented successfully" []
  end.

Definition guest_update : string := "guest.update".

Definition subscribeToGuestEvents : Prog unit :=
  await NatsConnect ;;
  console_log "Connected to NATS" [] ;;
  await (NatsSubscribe guest_update) ;;
  console_log ("Subscribed to " ++ quoted guest_update ++ " events") [] ;;
  perform (StartConsumer guest_update).

(** The callback given to [server.bindAsync]: [err] carries the bind error's
    message. *)
Definition on_bind (err : option string) (port : Z) : Prog unit :=
  match err with
  | Some msg => console_error ("Failed to bind server: " ++ msg) []
  | None =>
      console_log ("Server running at http://0.0.0.0:" ++ show_Z port) [] ;;
      catch subscribeToGuestEvents
            (fun error =>
               console_error "Failed to subscribe to guest events:" [LogThrown error])
  end.

(** The two payloads on which decoding the event throws: text that is not
    JSON ([JSON.parse] throws), and the JSON text [null] (reading [.event]
    off it throws). *)
Definition undecodable (payload : string) (e : JsError) : Prop :=
  (Json.parse payload = None /\
   e = SyntaxError "JSON.parse: unexpected token")
  \/
  (Json.parse payload = Some JNull /\
   e = TypeError "Cannot read properties of null (reading 'event')").

(** ** Running a program against its surroundings *)

(** One call together with what it answered. *)
Inductive Event : Type :=
| Ev (X : Type) (op : Eff X) (x : X).
Arguments Ev {X} op x.

Section Run.

Context {W : Type}.
Variable env : forall X : Type, Eff X -> W -> X * W.

Fixpoint run {A : Type} (p : Prog A) (w : W) : Completion A * W * list Event :=
  match p with
  | Ret a => (Returned a, w, [])
  | Throw e => (Thrown e, w, [])
  | Vis op k =>
      let (x, w1) := env _ op w in
      let '(r, w2, t) := run (k x) w1 in
      (r, w2, Ev op x :: t)
  end.

Definition outcome {A : Type} (p : Prog A) (w : W) : Completion A :=
  fst (fst (run p w)).
Definition final {A : Type} (p : Prog A) (w : W) : W :=
  snd (fst (run p w)).
Definition trace {A : Type} (p : Prog A) (w : W) : list Event :=
  snd (run p w).

End Run.

(** What a trace shows of the outside world. *)

Fixpoint collect {A : Type} (f : Event -> option A) (t : list Event) : list A :=
  match t with
  | [] => []
  | ev :: r =>
      match f ev with
      | Some a => a :: collect f r
      | None => collect f r
      end
  end.

(** Replies given through the handler's [callback]. *)
Definition callback_of (ev : Event) : option (option ServiceError * option Response) :=
  match ev with
  | Ev (Callback e v) _ => Some (e, v)
  | _ => None
  end.
Definition callbacks := collect callback_of.

(** Calls made on the guest store, each with the [{ data, error }] it
    answered. *)
Inductive StoreCall : Type :=
| CallInsert (first_name last_name : string) (room_number : Z)
| CallSelectSingle (last_name : string) (room_number : Z)
| CallRpcIncrement (last_name_input : string) (room_number_input : Z).

Definition store_exchange_of (ev : Event)
  : option (StoreCall * (option Row * option PostgrestError)) :=
  match ev with
  | Ev op x =>
      match op in Eff X return X -> _ with
      | GuestsInsert f l r => fun error => Some (CallInsert f l r, (None, error))
      | GuestsSelectSingle l r => fun response => Some (CallSelectSingle l r, response)
      | RpcIncrementWifiLoginCount l r =>
          fun error => Some (CallRpcIncrement l r, (None, error))
      | _ => fun _ => None
      end x
  end.
Definition store_log := collect store_exchange_of.

(** Results of [generateRoomNumber]. *)
Definition allocation_of (ev : Event) : option (Completion Z) :=
  match ev with
  | Ev op x =>
      match op in Eff X return X -> _ with
      | GenerateRoomNumber => fun r => Some r
      | _ => fun _ => None
      end x
  end.
Definition allocations := collect allocation_of.

(** RPC calls issued by the bridge through its client. *)
Definition rpc_call_of (ev : Event) : option (JsValue * JsValue) :=
  match ev with
  | Ev (ClientIncrementWifiLoginCount l r) _ => Some (l, r)
  | _ => None
  end.
Definition rpc_calls := collect rpc_call_of.

(** Lines written to the error stream. *)
Definition stderr_of (ev : Event) : option (string * list LogArg) :=
  match ev with
  | Ev (Console Stderr text args) _ => Some (text, args)
  | _ => None
  end.
Definition stderr_lines := collect stderr_of.

(** Failures of [connect] and of [nc.subscribe]. *)
Definition subscription_failure_of (ev : Event) : option JsError :=
  match ev with
  | Ev op x =>
      match op in Eff X return X -> _ with
      | NatsConnect => fun r => match r with Thrown e => Some e | Returned _ => None end
      | NatsSubscribe _ =>
          fun r => match r with Thrown e => Some e | Returned _ => None end
      | _ => fun _ => None
      end x
  end.
Definition subscription_failures := collect subscription_failure_of.

Definition consumer_started (t : list Event) : bool :=
  existsb (fun ev => match ev with Ev (StartConsumer _) _ => true | _ => false end) t.

(** Room numbers handed back by successful check-ins. *)
Definition granted_of (ev : Event) : option Z :=
  match ev with
  | Ev (Callback None (Some (CheckInGuestResponse r))) _ => Some r
  | _ => None
  end.
Definition granted_rooms := collect granted_of.

(** ** A reference world: the guest store, the room sequence, the bus *)

(** The [guests] table is kept by the Supabase project and the bus by a NATS
    server; neither is code of this repository.  The store is taken as the
    specification describes it: insert, single-row lookup by
    [(last_name, room_number)], an atomic increment on the same key, a fresh
    [id] and a zero counter for each new row, and no uniqueness constraint.
    [outages] scripts the infrastructure failures of the coming store calls
    (an absent or [None] entry is a healthy call). *)
Record World : Type := mkWorld {
  guests : list Row;
  next_id : Z;
  next_room : Z;
  outages : list (option PostgrestError);
  nats_connect : Completion unit;
  nats_subscribe : Completion unit
}.

Definition with_guests (w : World) (g : list Row) (i : Z) : World :=
  {| guests := g; next_id := i; next_room := next_room w;
     outages := outages w; nats_connect := nats_connect w;
     nats_subscribe := nats_subscribe w |}.

Definition with_next_room (w : World) (n : Z) : World :=
  {| guests := guests w; next_id := next_id w; next_room := n;
     outages := outages w; nats_connect := nats_connect w;
     nats_subscribe := nats_subscribe w |}.

Definition with_outages (w : World) (o : list (option PostgrestError)) : World :=
  {| guests := guests w; next_id := next_id w; next_room := next_room w;
     outages := o; nats_connect := nats_connect w;
     nats_subscribe := nats_subscribe w |}.

(** Consult the outage script for the store call about to be served. *)
Definition next_outage (w : World) : option PostgrestError * World :=
  match outages w with
  | [] => (None, w)
  | o :: rest => (o, with_outages w rest)
  end.

Definition key_matches (last_name_input : string) (room_number_input : Z)
  (r : Row) : bool :=
  String.eqb (last_name r) last_name_input && Z.eqb (room_number r) room_number_input.

(** What PostgREST answers to [.single()] when the query does not select
    exactly one row. *)
Definition PGRST116 (rows : nat) : PostgrestError :=
  {| pg_message := "JSON object requested, multiple (or no) rows returned";
     pg_details := "The result contains " ++ show_Z (Z.of_nat rows) ++ " rows";
     pg_hint := "";
     pg_code := "PGRST116" |}.

(** [.single()]: the one selected row as [data], or the [PGRST116] error when
    the selection holds no row or several. *)
Definition single (selected : list Row) : option Row * option PostgrestError :=
  match selected with
  | [r] => (Some r, None)
  | _ => (None, Some (PGRST116 (List.length selected)))
  end.

Definition bump (last_name_input : string) (room_number_input : Z) (r : Row) : Row :=
  if key_matches last_name_input room_number_input r
  then {| id := id r; first_name := first_name r; last_name := last_name r;
          room_number := room_number r;
          wifi_login_count := wifi_login_count r + 1 |}
  else r.

(** Modelled from the spec: [generateRoomNumber] is imported from [./utils],
    which is not among the sources.  It is the second strategy of the Room
    Allocator section: an atomic sequence that hands out the next number and
    never reuses one. *)
Definition generateRoomNumber (w : World) : Completion Z * World :=
  (Returned (next_room w), with_next_room w (next_room w + 1)).

(** [supabase.from("guests").insert(...)] *)
Definition store_insert (f l : string) (r : Z) (w : World)
  : option PostgrestError * World :=
  match next_outage w with
  | (Some e, w1) => (Some e, w1)
  | (None, w1) =>
      let row := {| id := next_id w1; first_name := f; last_name := l;
                    room_number := r; wifi_login_count := 0 |} in
      (None, with_guests w1 (guests w1 ++ [row]) (next_id w1 + 1))
  end.

(** [supabase.from("guests").select("*").eq(...).eq(...).single()] *)
Definition store_select_single (l : string) (r : Z) (w : World)
  : (option Row * option PostgrestError) * World :=
  match next_outage w with
  | (Some e, w1) => ((None, Some e), w1)
  | (None, w1) => (single (filter (key_matches l r) (guests w1)), w1)
  end.

(** [supabase.rpc("increment_wifi_login_count", ...)] *)
Definition store_rpc_increment (l : string) (r : Z) (w : World)
  : option PostgrestError * World :=
  match next_outage w with
  | (Some e, w1) => (Some e, w1)
  | (None, w1) => (None, with_guests w1 (map (bump l r) (guests w1)) (next_id w1))
  end.

Definition world_env (X : Type) (op : Eff X) (w : World) : X * World :=
  match op in Eff X return X * World with
  | Console _ _ _ => (tt, w)
  | GenerateRoomNumber => generateRoomNumber w
  | GuestsInsert f l r => store_insert f l r w
  | GuestsSelectSingle l r => store_select_single l r w
  | RpcIncrementWifiLoginCount l r => store_rpc_increment l r w
  | Callback _ _ => (tt, w)
  | NatsConnect => (nats_connect w, w)
  | NatsSubscribe _ => (nats_subscribe w, w)
  | StartConsumer _ => (tt, w)
  | ClientIncrementWifiLoginCount _ _ => (tt, w)
  end.

(** A world with an empty table, a healthy store and a reachable bus. *)
Definition empty_world : World :=
  {| guests := []; next_id := 1; next_room := 101; outages := [];
     nats_connect := Returned tt; nats_subscribe := Returned tt |}.

(** Modelled from the spec: [generateServiceError] of [./utils], "a single RPC
    error shape carrying a code, message, and details string, with the
    underlying store error's message preserved".  The spec fixes neither the
    code nor the name; no theorem below depends on them. *)
Definition generateServiceError_model (e : PostgrestError) : ServiceError :=
  {| name := "ServiceError";
     message := pg_message e;
     code := 13;
     details := pg_details e;
     metadata := [] |}.

Definition unreachable : PostgrestError :=
  {| pg_message := "TypeError: fetch failed"; pg_details := "";
     pg_hint := ""; pg_code := "" |}.


(** ** Concurrent handler invocations *)

(** Handler invocations in flight share the world.  Each call on the
    surroundings is one atomic step of the invocation that makes it, and a
    schedule names, step after step, which invocation moves next; this covers
    every interleaving the event loop can produce at the [await]s. *)

Fixpoint replace_nth {A : Type} (i : nat) (x : A) (l : list A) : list A :=
  match l, i with
  | [], _ => []
  | _ :: r, O => x :: r
  | a :: r, S j => a :: replace_nth j x r
  end.

Section Interleave.

Context {W : Type}.
Variable env : forall X : Type, Eff X -> W -> X * W.

Definition step (p : Prog unit) (w : W) : option (Prog unit * W * Event) :=
  match p with
  | Vis op k => let (x, w1) := env _ op w in Some (k x, w1, Ev op x)
  | Ret _ => None
  | Throw _ => None
  end.

Fixpoint interleave (schedule : list nat) (threads : list (Prog unit)) (w : W)
  : list (Prog unit) * W * list Event :=
  match schedule with
  | [] => (threads, w, [])
  | i :: rest =>
      match nth_error threads i with
      | Some p =>
          match step p w with
          | Some (p', w1, ev) =>
              let '(ths, w2, t) := interleave rest (replace_nth i p' threads) w1 in
              (ths, w2, ev :: t)
          | None => interleave rest threads w
          end
      | None => interleave rest threads w
      end
  end.

End Interleave.

(** [holds p h]: the invocation [p] asks the allocator at most once, and
    only while it holds no room; after the allocator answers [R] it holds
    [R], and the only room number it can hand back in a successful check-in
    reply is the one it holds, which it then gives up. *)
Fixpoint holds (p : Prog unit) (h : option Z) {struct p} : Prop :=
  match p with
  | Ret _ => True
  | Throw _ => True
  | Vis op k =>
      match op in Eff X return (X -> Prog unit) -> Prop with
      | GenerateRoomNumber =>
          fun k => h = None /\
                   (forall R, holds (k (Returned R)) (Some R)) /\
                   (forall e, holds (k (Thrown e)) None)
      | Callback None (Some (CheckInGuestResponse R)) =>
          fun k => h = Some R /\ holds (k tt) None
      | Callback _ _ => fun k => holds (k tt) h
      | Console _ _ _ => fun k => holds (k tt) h
      | GuestsInsert _ _ _ => fun k => forall error, holds (k error) h
      | GuestsSelectSingle _ _ => fun k => forall response, holds (k response) h
      | RpcIncrementWifiLoginCount _ _ => fun k => forall error, holds (k error) h
      | NatsConnect => fun k => forall r, holds (k r) h
      | NatsSubscribe _ => fun k => forall r, holds (k r) h
      | StartConsumer _ => fun k => holds (k tt) h
      | ClientIncrementWifiLoginCount _ _ => fun k => holds (k tt) h
      end k
  end.

(** Rooms held by the invocations in flight. *)
Definition held (hs : list (option Z)) : list Z :=
  flat_map (fun h => match h with Some r => [r] | None => [] end) hs.

(** ** Shapes of a payload *)

(** [recognized payload last room]: the payload is JSON, its [event] is the
    recognized tag, and [data.lastName], [data.roomNumber] can be read and are
    [last] and [room] (so [data] is neither missing nor [null]). *)
Definition recognized (payload : string) (last room : JsValue) : Prop :=
  exists v data,
    Json.parse payload = Some v /\
    get_prop v "event" = Returned (JString increment_tag) /\
    get_prop v "data" = Returned data /\
    get_prop data "lastName" = Returned last /\
    get_prop data "roomNumber" = Returned room.

(** [ignored payload]: the payload is JSON other than [null] and its [event]
    is not the recognized tag. *)
Definition ignored (payload : string) : Prop :=
  exists v tag,
    Json.parse payload = Some v /\
    get_prop v "event" = Returned tag /\
    tag <> JString increment_tag.

(** A payload the loop body gets through: ignored or recognized. *)
Definition handled (payload : string) : Prop :=
  ignored payload \/ exists last room, recognized payload last room.

(** [delivers messages calls]: every message is recognized or ignored, and
    [calls] lists the name and room of the recognized ones in delivery
    order. *)
Inductive delivers : list string -> list (JsValue * JsValue) -> Prop :=
| delivers_nil : delivers [] []
| delivers_recognized payload last room rest calls :
    recognized payload last room -> delivers rest calls ->
    delivers (payload :: rest) ((last, room) :: calls)
| delivers_ignored payload rest calls :
    ignored payload -> delivers rest calls ->
    delivers (payload :: rest) calls.




(** A trace with its console lines taken out. *)
Definition is_console (ev : Event) : bool :=
  match ev with
  | Ev (Console _ _ _) _ => true
  | _ => false
  end.
Definition without_console (t : list Event) : list Event :=
  filter (fun ev => negb (is_console ev)) t.

(** Surroundings on which printing has no effect. *)
Definition console_is_neutral {W : Type}
  (env : forall X : Type, Eff X -> W -> X * W) : Prop :=
  forall st text args w, env unit (Console st text args) w = (tt, w).

(** ** The service *)

(** One call on the service registered with [server.addService]. *)
Inductive Invocation : Type :=
| InvokeCheckInGuest (request : CheckInGuestRequest)
| InvokeGetGuestByLastNameAndRoom (request : GetGuestRequest)
| InvokeIncrementWifiLoginCount (request : IncrementWifiLoginCountRequest).

Definition serve (generateServiceError : PostgrestError -> ServiceError)
  (call : Invocation) : Prog unit :=
  match call with
  | InvokeCheckInGuest request => checkInGuest generateServiceError request
  | InvokeGetGuestByLastNameAndRoom request =>
      getGuestByLastNameAndRoom generateServiceError request
  | InvokeIncrementWifiLoginCount request =>
      incrementWifiLoginCount generateServiceError request
  end.

(** Rooms of the inserts the store accepted. *)
Definition accepted_of (ev : Event) : option Z :=
  match ev with
  | Ev op x =>
      match op in Eff X return X -> _ with
      | GuestsInsert _ _ r =>
          fun error => match error with None => Some r | Some _ => None end
      | _ => fun _ => None
      end x
  end.
Definition accepted_rooms := collect accepted_of.

(** [licensed p s]: the invocation [p] hands back a room in a successful
    check-in reply only if [s] is that room, and [s] becomes a room only
    through an insert of it that the store accepts. *)
Fixpoint licensed (p : Prog unit) (s : option Z) {struct p} : Prop :=
  match p with
  | Ret _ => True
  | Throw _ => True
  | Vis op k =>
      match op in Eff X return (X -> Prog unit) -> Prop with
      | GuestsInsert _ _ r =>
          fun k => licensed (k None) (Some r) /\
                   (forall e, licensed (k (Some e)) s)
      | Callback None (Some (CheckInGuestResponse R)) =>
          fun k => s = Some R /\ licensed (k tt) s
      | Callback _ _ => fun k => licensed (k tt) s
      | Console _ _ _ => fun k => licensed (k tt) s
      | GenerateRoomNumber => fun k => forall r, licensed (k r) s
      | GuestsSelectSingle _ _ => fun k => forall response, licensed (k response) s
      | RpcIncrementWifiLoginCount _ _ => fun k => forall error, licensed (k error) s
      | NatsConnect => fun k => forall r, licensed (k r) s
      | NatsSubscribe _ => fun k => forall r, licensed (k r) s
      | StartConsumer _ => fun k => licensed (k tt) s
      | ClientIncrementWifiLoginCount _ _ => fun k => licensed (k tt) s
      end k
  end.

(** The service as the copy without console lines registers it. *)
Definition serve_unlogged (generateServiceError : PostgrestError -> ServiceError)
  (call : Invocation) : Prog unit :=
  match call with
  | InvokeCheckInGuest request =>
      Unlogged.checkInGuest generateServiceError request
  | InvokeGetGuestByLastNameAndRoom request =>
      Unlogged.getGuestByLastNameAndRoom generateServiceError request
  | InvokeIncrementWifiLoginCount request =>
      Unlogged.incrementWifiLoginCount generateServiceError request
  end.

(** ** Sample messages *)

Definition member (key value : string) : string := quoted key ++ ": " ++ value.

(** [{"event": "increment.wifi.login.count", "data": {"lastName": "doe", "roomNumber": 101}}] *)
Definition msg_increment_doe : string :=
  "{" ++ member "event" (quoted increment_tag) ++ ", "
      ++ member "data" ("{" ++ member "lastName" (quoted "doe") ++ ", "
                            ++ member "roomNumber" "101" ++ "}") ++ "}".

(** The same event with the surname in capitals. *)
Definition msg_increment_DOE : string :=
  "{" ++ member "event" (quoted increment_tag) ++ ", "
      ++ member "data" ("{" ++ member "lastName" (quoted "DOE") ++ ", "
                            ++ member "roomNumber" "101" ++ "}") ++ "}".

(** [{"event": "increment.wifi.login.count"}] *)
Definition msg_increment_no_data : string :=
  "{" ++ member "event" (quoted increment_tag) ++ "}".

(** [{"event": "guest.checked.out", "data": {}}] *)
Definition msg_checked_out : string :=
  "{" ++ member "event" (quoted "guest.checked.out") ++ ", "
      ++ member "data" "{}" ++ "}".

Definition msg_not_json : string := "{not json".

(** ** Sample worlds and requests *)

(** A world whose NATS server refuses the connection. *)
Definition refused_world : World :=
  {| guests := []; next_id := 1; next_room := 101; outages := [];
     nats_connect := Thrown (ExternalError "CONNECTION_REFUSED");
     nats_subscribe := Returned tt |}.

(** Three check-ins in flight at once, and one way of interleaving their
    steps. *)
Definition three_requests : list CheckInGuestRequest :=
  [mkCheckInGuestRequest "Ann" "Lee"; mkCheckInGuestRequest "Bob" "Ray";
   mkCheckInGuestRequest "Cy" "Poe"].

Definition a_schedule : list nat :=
  [0; 1; 2; 2; 1; 0; 2; 2; 0; 0; 1; 1; 2; 1; 0; 0; 1; 2]%nat.

(** ** Basic facts *)

Local Open Scope list_scope.

Lemma collect_app {A : Type} (f : Event -> option A) (t1 t2 : list Event) :
  collect f (t1 ++ t2) = collect f t1 ++ collect f t2.
Proof.
  induction t1 as [|ev t1 IH]; simpl; [reflexivity|].
  destruct (f ev); simpl; now rewrite IH.
Qed.

Lemma strict_eq_string_true (v : JsValue) (lit : string) :
  strict_eq_string v lit = true <-> v = JString lit.
Proof.
  destruct v; simpl; split; intro H; try discriminate.
  - apply String.eqb_eq in H. now subst.
  - injection H as ->. apply String.eqb_refl.
Qed.

Lemma strict_eq_string_false (v : JsValue) (lit : string) :
  v <> JString lit -> strict_eq_string v lit = false.
Proof.
  intro H. destruct (strict_eq_string v lit) eqn:E; [|reflexivity].
  apply strict_eq_string_true in E. contradiction.
Qed.

Lemma lower_ascii_idem (c : ascii) : lower_ascii (lower_ascii c) = lower_ascii c.
Proof.
  destruct c as [[] [] [] [] [] [] [] []]; reflexivity.
Qed.

Lemma toLowerCase_idem (s : string) : toLowerCase (toLowerCase s) = toLowerCase s.
Proof.
  induction s as [|c s IH]; simpl; [reflexivity|].
  now rewrite lower_ascii_idem, IH.
Qed.

Lemma casing_variant_lower (s t : string) :
  casing_variant s t -> toLowerCase s = toLowerCase t.
Proof.
  induction 1 as [|a b s t Hab _ IH]; simpl; [reflexivity|].
  unfold same_letter in Hab. now rewrite Hab, IH.
Qed.

Lemma casing_variant_of_lower (s : string) : casing_variant s (toLowerCase s).
Proof.
  induction s as [|c s IH]; simpl; constructor; [|exact IH].
  unfold same_letter. now rewrite lower_ascii_idem.
Qed.

Section RunFacts.

Context {W : Type}.
Variable env : forall X : Type, Eff X -> W -> X * W.

Lemma run_bind {A B : Type} (p : Prog A) (f : A -> Prog B) (w : W) :
  run env (bind p f) w =
  match run env p w with
  | (Returned a, w1, t1) =>
      let '(r, w2, t2) := run env (f a) w1 in (r, w2, t1 ++ t2)
  | (Thrown e, w1, t1) => (Thrown e, w1, t1)
  end.
Proof.
  revert w. induction p as [a|e|X op k IH]; intro w; simpl.
  - now destruct (run env (f a) w) as [[r w2] t2].
  - reflexivity.
  - destruct (env X op w) as [x w1]. rewrite IH.
    destruct (run env (k x) w1) as [[[a|e] w2] t1]; [|reflexivity].
    now destruct (run env (f a) w2) as [[r w3] t2].
Qed.

End RunFacts.

(** ** The handlers against any surroundings *)

Section HandlerFacts.

Variable generateServiceError : PostgrestError -> ServiceError.
Context {W : Type}.
Variable env : forall X : Type, Eff X -> W -> X * W.

(** Answer the call at the head of the program being run. *)
Local Tactic Notation "answer" ident(x) ident(w') :=
  match goal with
  | |- context [env ?X ?op ?w] => destruct (env X op w) as [x w']
  end; cbn.

(** The three ways a check-in can go: the allocator rejects, the insert is
    refused, the insert is accepted. *)
Lemma checkInGuest_replies (w : W) (first last : string) :
  let t := trace env (checkInGuest generateServiceError
                        (mkCheckInGuestRequest first last)) w in
  (exists e, allocations t = [Thrown e] /\ store_log t = [] /\ callbacks t = [])
  \/
  (exists R error,
      allocations t = [Returned R] /\
      store_log t =
        [(CallInsert (toLowerCase first) (toLowerCase last) R, (None, error))] /\
      callbacks t =
        [match error with
         | Some e => (Some (generateServiceError e), None)
         | None => (None, Some (CheckInGuestResponse R))
         end]).
Proof.
  unfold trace, checkInGuest. cbn.
  answer u w1. destruct u.
  answer r w2. destruct r as [R|e]; cbn.
  - right. exists R.
    answer error w3. exists error. destruct error as [e|]; cbn.
    + answer u w4. answer u' w5. now destruct u, u'.
    + answer u w4. answer u' w5. now destruct u, u'.
  - left. now exists e.
Qed.

(** The lookup asks the store once, for the lower-cased surname and the room,
    and replies according to the [{ data, error }] it gets. *)
Lemma getGuestByLastNameAndRoom_replies (w : W) (last : string) (room : Z) :
  let t := trace env (getGuestByLastNameAndRoom generateServiceError
                        (mkGetGuestRequest last room)) w in
  exists data error,
    store_log t = [(CallSelectSingle (toLowerCase last) room, (data, error))] /\
    callbacks t =
      [match error, data with
       | Some e, _ => (Some (generateServiceError e), None)
       | None, None => (Some NoUserError, None)
       | None, Some row =>
           (None, Some (GuestResponse
                          {| g_id := id row;
                             firstName := first_name row;
                             lastName := last_name row;
                             roomNumber := room_number row;
                             wifiLoginCount := wifi_login_count row |}))
       end].
Proof.
  unfold trace, getGuestByLastNameAndRoom. cbn.
  answer u w1. destruct u.
  answer response w2. destruct response as [data error].
  exists data, error. destruct error as [e|]; [|destruct data as [row|]]; cbn.
  - answer u w3. answer u' w4. now destruct u, u'.
  - answer u w3. answer u' w4. now destruct u, u'.
  - answer u w3. answer u' w4. now destruct u, u'.
Qed.

(** C8: [incrementWifiLoginCount] makes exactly one store call, the
    [increment_wifi_login_count] RPC keyed by the lower-cased surname and the
    room number (so no read precedes it), and its single reply is
    [{ success: true }] when the store answered without an error and the
    mapped error, with no response value, when the store answered with one. *)
Theorem incrementWifiLoginCount_only_increments
  (w : W) (last : string) (room : Z) :
  let t := trace env (incrementWifiLoginCount generateServiceError
                        (mkIncrementWifiLoginCountRequest last room)) w in
  exists error,
    store_log t = [(CallRpcIncrement (toLowerCase last) room, (None, error))] /\
    callbacks t =
      [match error with
       | None => (None, Some (IncrementWifiLoginCountResponse true))
       | Some e => (Some (generateServiceError e), None)
       end].
Proof.
  unfold trace, incrementWifiLoginCount. cbn.
  answer u w1. destruct u.
  answer error w2. exists error. destruct error as [e|]; cbn.
  - answer u w3. answer u' w4. now destruct u, u'.
  - answer u w3. answer u' w4. now destruct u, u'.
Qed.

(** C6: a check-in that replies with room number [R] got [R] from the room
    allocator, stored the lower-cased first name, the lower-cased last name
    and [R] in one accepted insert, and made that single reply; and the
    check-ins of ("Jane", "DOE") and of ("jane", "doe") send the same fields
    to the store. *)
Theorem checkIn_stores_lowercased_names_and_returns_room (w : W) :
  (forall first last R,
      let t := trace env (checkInGuest generateServiceError
                            (mkCheckInGuestRequest first last)) w in
      In (None, Some (CheckInGuestResponse R)) (callbacks t) ->
      allocations t = [Returned R] /\
      store_log t =
        [(CallInsert (toLowerCase first) (toLowerCase last) R, (None, None))] /\
      callbacks t = [(None, Some (CheckInGuestResponse R))])
  /\
  store_log (trace env (checkInGuest generateServiceError
                          (mkCheckInGuestRequest "Jane" "DOE")) w)
  = store_log (trace env (checkInGuest generateServiceError
                            (mkCheckInGuestRequest "jane" "doe")) w).
Proof.
  split; [|reflexivity].
  intros first last R t Hin.
  destruct (checkInGuest_replies w first last) as [(e & _ & _ & Hc)|(R' & error & Ha & Hs & Hc)];
    fold t in Hc; rewrite Hc in Hin.
  - destruct Hin.
  - fold t in Ha, Hs. rewrite Ha, Hs, Hc.
    destruct error as [e|]; destruct Hin as [Heq|[]]; [discriminate|].
    injection Heq as ->. now repeat split.
Qed.

End HandlerFacts.

(** ** The event bridge against any surroundings *)

Section BridgeFacts.

Context {W : Type}.
Variable env : forall X : Type, Eff X -> W -> X * W.

Local Tactic Notation "answer" ident(x) ident(w') :=
  match goal with
  | |- context [env ?X ?op ?w] => destruct (env X op w) as [x w']
  end; cbn.

Lemma run_consume_cons (msg : string) (rest : list string) (w : W) :
  run env (consume (msg :: rest)) w =
  match run env (on_message msg) w with
  | (Returned _, w1, t1) =>
      let '(r, w2, t2) := run env (consume rest) w1 in (r, w2, t1 ++ t2)
  | (Thrown e, w1, t1) => (Thrown e, w1, t1)
  end.
Proof. simpl consume. apply run_bind. Qed.

Lemma run_consume_app (pre post : list string) (w : W) :
  run env (consume (pre ++ post)) w =
  match run env (consume pre) w with
  | (Returned _, w1, t1) =>
      let '(r, w2, t2) := run env (consume post) w1 in (r, w2, t1 ++ t2)
  | (Thrown e, w1, t1) => (Thrown e, w1, t1)
  end.
Proof.
  revert w. induction pre as [|msg pre IH]; intro w.
  - simpl. now destruct (run env (consume post) w) as [[r w2] t2].
  - rewrite <- app_comm_cons, !run_consume_cons.
    destruct (run env (on_message msg) w) as [[[u|e] w1] t1]; [|reflexivity].
    rewrite IH.
    destruct (run env (consume pre) w1) as [[[u'|e] w2] t2]; [|reflexivity].
    destruct (run env (consume post) w2) as [[r w3] t3].
    now rewrite app_assoc.
Qed.

(** An undecodable payload makes the loop body throw before any RPC call. *)
Lemma on_message_undecodable (payload : string) (e : JsError) (w : W) :
  undecodable payload e ->
  outcome env (on_message payload) w = Thrown e /\
  rpc_calls (trace env (on_message payload) w) = [].
Proof.
  unfold outcome, trace, on_message, JSON_parse.
  intros [[Hp ->]|[Hp ->]]; rewrite Hp; cbn.
  - now split.
  - answer u w1. now split.
Qed.

(** C2, as the code has it: a payload on which decoding throws is not
    skipped.  The error leaves the loop body uncaught, so the loop ends with
    it: when the messages before it were handled without error, the loop over
    the whole delivery ends with that error, and the RPC calls issued are
    those of the earlier messages only; nothing is issued for the payload or
    for any message after it. *)
Theorem undecodable_payload_ends_the_loop
  (w : W) (pre post : list string) (bad : string) (e : JsError) :
  undecodable bad e ->
  outcome env (consume pre) w = Returned tt ->
  outcome env (consume (pre ++ bad :: post)) w = Thrown e /\
  rpc_calls (trace env (consume (pre ++ bad :: post)) w)
  = rpc_calls (trace env (consume pre) w).
Proof.
  intros Hbad Hpre. unfold outcome, trace in *.
  rewrite run_consume_app.
  destruct (run env (consume pre) w) as [[[u|e'] w1] t1]; [|discriminate].
  rewrite run_consume_cons.
  destruct (on_message_undecodable bad e w1 Hbad) as [Ho Hr].
  unfold outcome, trace in Ho, Hr.
  destruct (run env (on_message bad) w1) as [[[u'|e'] w2] t2];
    cbn in Ho, Hr |- *; [discriminate|].
  injection Ho as ->. split; [reflexivity|].
  unfold rpc_calls in *. rewrite collect_app, Hr. apply app_nil_r.
Qed.

(** C4, as the code has it: a message tagged [increment.wifi.login.count]
    whose [data] member is present and not [null] leads to exactly one
    [IncrementWifiLoginCount] call through the client, carrying
    [data.lastName] and [data.roomNumber] exactly as the payload has them
    (the bridge applies no case mapping), and the loop body ends normally. *)
Theorem tagged_event_dispatches_once
  (w : W) (payload : string) (v data : JsValue) :
  Json.parse payload = Some v ->
  get_prop v "event" = Returned (JString increment_tag) ->
  get_prop v "data" = Returned data ->
  data <> JUndefined -> data <> JNull ->
  exists last room,
    get_prop data "lastName" = Returned last /\
    get_prop data "roomNumber" = Returned room /\
    outcome env (on_message payload) w = Returned tt /\
    rpc_calls (trace env (on_message payload) w) = [(last, room)].
Proof.
  intros Hp He Hd Hu Hn.
  assert (Hget : forall key, exists x, get_prop data key = Returned x).
  { intro key. destruct data; try contradiction; simpl; eauto.
    destruct (lookup_member key members); eauto. }
  destruct (Hget "lastName"%string) as [last Hl].
  destruct (Hget "roomNumber"%string) as [room Hr].
  exists last, room. repeat split; trivial.
  - unfold outcome, on_message, JSON_parse. rewrite Hp. cbn.
    answer u w1. rewrite He. cbn. rewrite Hd. cbn. rewrite Hl. cbn.
    rewrite Hr. cbn. answer u' w2. now destruct u'.
  - unfold trace, on_message, JSON_parse. rewrite Hp. cbn.
    answer u w1. rewrite He. cbn. rewrite Hd. cbn. rewrite Hl. cbn.
    rewrite Hr. cbn. answer u' w2. reflexivity.
Qed.

(** C5: a message that decodes to a value whose [event] is anything but
    [increment.wifi.login.count] causes no RPC call, writes nothing to the
    error stream and throws nothing: the loop body only prints the received
    value and ends normally, so the loop goes on with the next message. *)
Theorem unrecognized_event_is_ignored
  (w : W) (payload : string) (v tag : JsValue) :
  Json.parse payload = Some v ->
  get_prop v "event" = Returned tag ->
  tag <> JString increment_tag ->
  outcome env (on_message payload) w = Returned tt /\
  rpc_calls (trace env (on_message payload) w) = [] /\
  stderr_lines (trace env (on_message payload) w) = [] /\
  forall rest,
    rpc_calls (trace env (consume (payload :: rest)) w)
    = rpc_calls (trace env (consume rest) (final env (on_message payload) w)) /\
    outcome env (consume (payload :: rest)) w
    = outcome env (consume rest) (final env (on_message payload) w).
Proof.
  intros Hp He Hne.
  apply strict_eq_string_false in Hne.
  assert (Hrun : exists u w1,
             run env (on_message payload) w =
             (Returned tt, w1,
              [Ev (Console Stdout "Received guest update:" [LogValue v]) u])).
  { unfold on_message, JSON_parse. rewrite Hp. cbn.
    answer u w1. rewrite He. cbn. rewrite Hne. cbn. eauto. }
  destruct Hrun as (u & w1 & Hrun).
  unfold outcome, trace, final. repeat split.
  - now rewrite Hrun.
  - now rewrite Hrun.
  - now rewrite Hrun.
  - rewrite run_consume_cons, Hrun. cbn.
    now destruct (run env (consume rest) w1) as [[r w2] t2].
  - rewrite run_consume_cons, Hrun. cbn.
    now destruct (run env (consume rest) w1) as [[r w2] t2].
Qed.

(** C3: when [connect] rejects or [nc.subscribe] throws, the error leaves
    [subscribeToGuestEvents] as its rejection and the consumer loop is never
    launched; the start-up callback receives it in its [.catch] handler and
    writes it to the error stream. *)
Theorem subscription_failure_stops_bridge_and_is_reported
  (w : W) (port : Z) (e : JsError) :
  (In e (subscription_failures (trace env subscribeToGuestEvents w)) ->
   outcome env subscribeToGuestEvents w = Thrown e /\
   consumer_started (trace env subscribeToGuestEvents w) = false)
  /\
  (In e (subscription_failures (trace env (on_bind None port) w)) ->
   consumer_started (trace env (on_bind None port) w) = false /\
   stderr_lines (trace env (on_bind None port) w)
   = [("Failed to subscribe to guest events:"%string, [LogThrown e])]).
Proof.
  split.
  - unfold outcome, trace, subscribeToGuestEvents. cbn.
    answer c w1. destruct c as [[]|e1]; cbn.
    + answer u w2. answer c w3. destruct c as [[]|e2]; cbn.
      * answer u' w4. answer u'' w5. intros [].
      * intros [->|[]]. now split.
    + intros [->|[]]. now split.
  - unfold outcome, trace, on_bind, subscribeToGuestEvents. cbn.
    answer u0 w0.
    answer c w1. destruct c as [[]|e1]; cbn.
    + answer u w2. answer c w3. destruct c as [[]|e2]; cbn.
      * answer u' w4. answer u'' w5. intros [].
      * answer u' w4. intros [->|[]]. now split.
    + answer u w2. intros [->|[]]. now split.
Qed.

End BridgeFacts.


(** ** The handlers in the reference world *)

Lemma next_outage_keeps (w : World) :
  guests (snd (next_outage w)) = guests w /\
  next_id (snd (next_outage w)) = next_id w /\
  next_room (snd (next_outage w)) = next_room w.
Proof. unfold next_outage. now destruct (outages w). Qed.

Lemma filter_none {A : Type} (f : A -> bool) (l : list A) :
  (forall a, In a l -> f a = false) -> filter f l = [].
Proof.
  induction l as [|a l IH]; intro H; simpl; [reflexivity|].
  rewrite (H a (or_introl eq_refl)). apply IH. intros b Hb. apply H. now right.
Qed.

Section ReferenceWorld.

Variable generateServiceError : PostgrestError -> ServiceError.

Lemma run_checkInGuest_world (w : World) (first last : string) :
  run world_env (checkInGuest generateServiceError
                   (mkCheckInGuestRequest first last)) w =
  let R := next_room w in
  let w1 := with_next_room w (R + 1) in
  match store_insert (toLowerCase first) (toLowerCase last) R w1 with
  | (Some e, w2) =>
      (Returned tt, w2,
       [Ev (Console Stdout "Check-in request received" []) tt;
        Ev GenerateRoomNumber (Returned R);
        Ev (GuestsInsert (toLowerCase first) (toLowerCase last) R) (Some e);
        Ev (Console Stderr "Error in check-in process:" [LogPostgrest e]) tt;
        Ev (Callback (Some (generateServiceError e)) None) tt])
  | (None, w2) =>
      (Returned tt, w2,
       [Ev (Console Stdout "Check-in request received" []) tt;
        Ev GenerateRoomNumber (Returned R);
        Ev (GuestsInsert (toLowerCase first) (toLowerCase last) R) None;
        Ev (Callback None (Some (CheckInGuestResponse R))) tt;
        Ev (Console Stdout "Check-in response sent" []) tt])
  end.
Proof.
  unfold checkInGuest. cbn -[store_insert].
  destruct (store_insert _ _ _ _) as [[e|] w2]; reflexivity.
Qed.

Lemma run_getGuestByLastNameAndRoom_world (w : World) (last : string) (room : Z) :
  run world_env (getGuestByLastNameAndRoom generateServiceError
                   (mkGetGuestRequest last room)) w =
  match store_select_single (toLowerCase last) room w with
  | ((data, Some e), w1) =>
      (Returned tt, w1,
       [Ev (Console Stdout "Get guest request received" []) tt;
        Ev (GuestsSelectSingle (toLowerCase last) room) (data, Some e);
        Ev (Console Stderr "Error in get guest process:" [LogPostgrest e]) tt;
        Ev (Callback (Some (generateServiceError e)) None) tt])
  | ((None, None), w1) =>
      (Returned tt, w1,
       [Ev (Console Stdout "Get guest request received" []) tt;
        Ev (GuestsSelectSingle (toLowerCase last) room) (None, None);
        Ev (Console Stderr "No user found" []) tt;
        Ev (Callback (Some NoUserError) None) tt])
  | ((Some row, None), w1) =>
      (Returned tt, w1,
       [Ev (Console Stdout "Get guest request received" []) tt;
        Ev (GuestsSelectSingle (toLowerCase last) room) (Some row, None);
        Ev (Callback None
              (Some (GuestResponse
                       {| g_id := id row;
                          firstName := first_name row;
                          lastName := last_name row;
                          roomNumber := room_number row;
                          wifiLoginCount := wifi_login_count row |}))) tt;
        Ev (Console Stdout "Get guest response sent" []) tt])
  end.
Proof.
  unfold getGuestByLastNameAndRoom. cbn -[store_select_single].
  destruct (store_select_single _ _ _) as [[[row|] [e|]] w1]; reflexivity.
Qed.

(** C10: [checkInGuest] has no validation step.  Whatever the two names are,
    either the allocator rejects (and nothing is stored or replied), or the
    one store call is the insert of the lower-cased names with the allocated
    room, and the single reply depends on the insert's answer alone: the
    room number when the store accepted, the store's error mapped by
    [generateServiceError] when it refused.  With two empty names and a
    healthy store the row with empty names is stored and the call succeeds. *)
Theorem checkIn_applies_no_validation
  {W : Type} (env : forall X : Type, Eff X -> W -> X * W) (w : W)
  (first last : string) :
  let t := trace env (checkInGuest generateServiceError
                        (mkCheckInGuestRequest first last)) w in
  ((exists e, allocations t = [Thrown e] /\ store_log t = [] /\ callbacks t = [])
   \/
   (exists R error,
       allocations t = [Returned R] /\
       store_log t =
         [(CallInsert (toLowerCase first) (toLowerCase last) R, (None, error))] /\
       callbacks t =
         [match error with
          | Some e => (Some (generateServiceError e), None)
          | None => (None, Some (CheckInGuestResponse R))
          end]))
  /\
  (let empty := checkInGuest generateServiceError
                  (mkCheckInGuestRequest EmptyString EmptyString) in
   guests (final world_env empty empty_world)
   = [{| id := 1; first_name := EmptyString; last_name := EmptyString;
         room_number := 101; wifi_login_count := 0 |}] /\
   callbacks (trace world_env empty empty_world)
   = [(None, Some (CheckInGuestResponse 101))]).
Proof.
  split.
  - apply checkInGuest_replies.
  - split; reflexivity.
Qed.

(** A healthy lookup that selects no row is answered by [.single()] with the
    [PGRST116] error, and the handler replies with that error mapped by
    [generateServiceError]; the [NoUserError] branch is not taken. *)
Lemma lookup_selecting_no_row (w : World) (last : string) (room : Z) :
  fst (next_outage w) = None ->
  filter (key_matches (toLowerCase last) room) (guests w) = [] ->
  let t := trace world_env (getGuestByLastNameAndRoom generateServiceError
                              (mkGetGuestRequest last room)) w in
  store_log t
  = [(CallSelectSingle (toLowerCase last) room, (None, Some (PGRST116 0)))] /\
  callbacks t = [(Some (generateServiceError (PGRST116 0)), None)].
Proof.
  intros Ho Hf. unfold trace. rewrite run_getGuestByLastNameAndRoom_world.
  unfold store_select_single.
  destruct (next_outage_keeps w) as (Hg & _ & _).
  destruct (next_outage w) as [o w1]. cbn [fst snd] in *. subst o.
  rewrite Hg, Hf. cbn. now split.
Qed.

(** Had the store answered with neither data nor error, the handler would
    reply [NoUserError]. *)
Lemma lookup_without_data_or_error
  {W : Type} (env : forall X : Type, Eff X -> W -> X * W) (w : W)
  (last : string) (room : Z) :
  let t := trace env (getGuestByLastNameAndRoom generateServiceError
                        (mkGetGuestRequest last room)) w in
  store_log t = [(CallSelectSingle (toLowerCase last) room, (None, None))] ->
  callbacks t = [(Some NoUserError, None)].
Proof.
  intros t Hs.
  destruct (getGuestByLastNameAndRoom_replies generateServiceError env w last room)
    as (data & error & Hs' & Hc).
  fold t in Hs', Hc. rewrite Hs' in Hs. injection Hs as -> ->. exact Hc.
Qed.

(** C1, on the code: looking up ("nobody", 999) in an empty, healthy store.
    The store call is answered with [data = null] and the [PGRST116] error,
    so the handler leaves through its [if (error)] branch and replies with
    [generateServiceError] of that error, not with [NoUserError]. *)
Theorem lookup_of_absent_guest_replies_store_error :
  let t := trace world_env (getGuestByLastNameAndRoom generateServiceError
                              (mkGetGuestRequest "nobody" 999)) empty_world in
  store_log t = [(CallSelectSingle "nobody" 999, (None, Some (PGRST116 0)))] /\
  callbacks t = [(Some (generateServiceError (PGRST116 0)), None)] /\
  stderr_lines t
  = [("Error in get guest process:"%string, [LogPostgrest (PGRST116 0)])].
Proof. repeat split. Qed.

(** C7: after a check-in of [last] that replied with room [R], a lookup of
    any casing variant of [last] with [R] replies with the guest record just
    stored (lower-cased names, room [R], a zero login count), the same for
    every variant; provided no guest with that surname held room [R] before
    the check-in and the store is healthy when the lookup reaches it. *)
Theorem lookup_after_checkIn_ignores_case
  (w : World) (first last variant : string) (R : Z) :
  let checkin := checkInGuest generateServiceError
                   (mkCheckInGuestRequest first last) in
  casing_variant last variant ->
  In (None, Some (CheckInGuestResponse R)) (callbacks (trace world_env checkin w)) ->
  (forall r, In r (guests w) -> key_matches (toLowerCase last) R r = false) ->
  fst (next_outage (final world_env checkin w)) = None ->
  callbacks (trace world_env
               (getGuestByLastNameAndRoom generateServiceError
                  (mkGetGuestRequest variant R))
               (final world_env checkin w))
  = [(None, Some (GuestResponse
                    {| g_id := next_id w;
                       firstName := toLowerCase first;
                       lastName := toLowerCase last;
                       roomNumber := R;
                       wifiLoginCount := 0 |}))].
Proof.
  intros checkin Hcv. apply casing_variant_lower in Hcv.
  unfold trace, final, checkin. rewrite run_checkInGuest_world.
  cbv zeta. unfold store_insert.
  destruct (next_outage_keeps (with_next_room w (next_room w + 1))) as (Hg & Hi & _).
  cbn [guests next_id with_next_room] in Hg, Hi.
  destruct (next_outage (with_next_room w (next_room w + 1))) as [[e|] w1];
    cbn [fst snd] in *.
  - intros [Heq|[]]. discriminate.
  - intros [Heq|[]] Hfree Hhealthy. injection Heq as <-.
    rewrite run_getGuestByLastNameAndRoom_world. unfold store_select_single.
    destruct (next_outage_keeps
                (with_guests w1
                   (guests w1 ++
                    [{| id := next_id w1; first_name := toLowerCase first;
                        last_name := toLowerCase last;
                        room_number := next_room w; wifi_login_count := 0 |}])
                   (next_id w1 + 1))) as (Hg2 & _ & _).
    destruct (next_outage (with_guests _ _ _)) as [o w2].
    cbn [fst snd] in *. subst o. rewrite Hg2. cbn [guests with_guests].
    rewrite Hg, <- Hcv, filter_app, (filter_none _ _ Hfree).
    cbn [filter app]. unfold key_matches at 1. cbn [last_name room_number].
    rewrite String.eqb_refl, Z.eqb_refl. cbn. rewrite Hi. reflexivity.
Qed.

End ReferenceWorld.

(** ** Check-ins in flight at once *)

Lemma store_insert_next_room (f l : string) (r : Z) (w : World) :
  next_room (snd (store_insert f l r w)) = next_room w.
Proof.
  unfold store_insert. destruct (next_outage_keeps w) as (_ & _ & H).
  destruct (next_outage w) as [[e|] w1]; cbn in *; exact H.
Qed.

Lemma store_select_single_next_room (l : string) (r : Z) (w : World) :
  next_room (snd (store_select_single l r w)) = next_room w.
Proof.
  unfold store_select_single. destruct (next_outage_keeps w) as (_ & _ & H).
  destruct (next_outage w) as [[e|] w1]; cbn in *; exact H.
Qed.

Lemma store_rpc_increment_next_room (l : string) (r : Z) (w : World) :
  next_room (snd (store_rpc_increment l r w)) = next_room w.
Proof.
  unfold store_rpc_increment. destruct (next_outage_keeps w) as (_ & _ & H).
  destruct (next_outage w) as [[e|] w1]; cbn in *; exact H.
Qed.

Lemma replace_nth_app {A : Type} (l1 l2 : list A) (a x : A) :
  replace_nth (List.length l1) x (l1 ++ a :: l2) = l1 ++ x :: l2.
Proof. induction l1 as [|b l1 IH]; simpl; [reflexivity|]. now rewrite IH. Qed.

Lemma held_app (a b : list (option Z)) : held (a ++ b) = held a ++ held b.
Proof. apply flat_map_app. Qed.

Lemma held_none {A : Type} (l : list A) : held (map (fun _ => None) l) = [].
Proof. induction l; simpl; auto. Qed.

(** One step of an invocation in the reference world: it hands back the room
    it holds, or leaves the holding as it is, or takes the next room of the
    sequence. *)
Lemma step_holds (p p' : Prog unit) (h : option Z) (w w' : World) (ev : Event) :
  holds p h ->
  step world_env p w = Some (p', w', ev) ->
  exists h',
    holds p' h' /\
    ((exists R, granted_of ev = Some R /\ h = Some R /\ h' = None /\
                next_room w' = next_room w)
     \/ (granted_of ev = None /\ h' = h /\ next_room w' = next_room w)
     \/ (granted_of ev = None /\ h = None /\ h' = Some (next_room w) /\
         next_room w' = next_room w + 1)).
Proof.
  destruct p as [a|e|X op k]; simpl; try discriminate.
  destruct op as [st text args| |f l r|l r|l r|error value| |subject|subject|l r];
    simpl; intros Hh Hs.
  - injection Hs as <- <- <-. exists h. split; [exact Hh|]. right. left. now repeat split.
  - injection Hs as <- <- <-. destruct Hh as (-> & HR & _).
    exists (Some (next_room w)). split; [apply HR|]. right. right. now repeat split.
  - pose proof (store_insert_next_room f l r w) as Hn.
    destruct (store_insert _ _ _ w) as [x w1]. injection Hs as <- <- <-.
    exists h. split; [apply Hh|]. right. left. now repeat split.
  - pose proof (store_select_single_next_room l r w) as Hn.
    destruct (store_select_single _ _ w) as [x w1]. injection Hs as <- <- <-.
    exists h. split; [apply Hh|]. right. left. now repeat split.
  - pose proof (store_rpc_increment_next_room l r w) as Hn.
    destruct (store_rpc_increment _ _ w) as [x w1]. injection Hs as <- <- <-.
    exists h. split; [apply Hh|]. right. left. now repeat split.
  - injection Hs as <- <- <-.
    destruct error as [err|]; [|destruct value as [[R|g|b]|]].
    + exists h. split; [exact Hh|]. right. left. now repeat split.
    + destruct Hh as (-> & Hk). exists None. split; [exact Hk|]. left.
      exists R. now repeat split.
    + exists h. split; [exact Hh|]. right. left. now repeat split.
    + exists h. split; [exact Hh|]. right. left. now repeat split.
    + exists h. split; [exact Hh|]. right. left. now repeat split.
  - injection Hs as <- <- <-. exists h. split; [apply Hh|]. right. left. now repeat split.
  - injection Hs as <- <- <-. exists h. split; [apply Hh|]. right. left. now repeat split.
  - injection Hs as <- <- <-. exists h. split; [exact Hh|]. right. left. now repeat split.
  - injection Hs as <- <- <-. exists h. split; [exact Hh|]. right. left. now repeat split.
Qed.

(** Along any schedule the rooms handed back are pairwise distinct, and each
    of them is either held now or still to come from the sequence. *)
Lemma interleave_grants_distinct (schedule : list nat) :
  forall (threads : list (Prog unit)) (hs : list (option Z)) (w : World),
    Forall2 holds threads hs ->
    NoDup (held hs) ->
    (forall R, In R (held hs) -> R < next_room w) ->
    let t := snd (interleave world_env schedule threads w) in
    NoDup (granted_rooms t) /\
    (forall R, In R (granted_rooms t) -> In R (held hs) \/ next_room w <= R).
Proof.
  induction schedule as [|i rest IH]; intros threads hs w Hf Hnd Hb; simpl.
  - split; [constructor|intros R []].
  - destruct (nth_error threads i) as [p|] eqn:Hnth; [|now apply IH].
    destruct (step world_env p w) as [[[p' w1] ev]|] eqn:Hstep; [|now apply IH].
    apply nth_error_split in Hnth. destruct Hnth as (l1 & l2 & -> & <-).
    rewrite replace_nth_app.
    apply Forall2_app_inv_l in Hf.
    destruct Hf as (h1 & hr & Hf1 & Hf2 & ->).
    inversion Hf2 as [|p0 h l2' h2 Hp Hf3]; subst.
    destruct (step_holds _ _ _ _ _ _ Hp Hstep) as (h' & Hp' & Hcase).
    assert (Hf' : Forall2 holds (l1 ++ p' :: l2) (h1 ++ h' :: h2)).
    { apply Forall2_app; [exact Hf1|]. now constructor. }
    rewrite held_app in Hnd, Hb. simpl in Hnd, Hb.
    specialize (IH (l1 ++ p' :: l2) (h1 ++ h' :: h2) w1 Hf').
    rewrite held_app in IH. simpl in IH.
    destruct (interleave world_env rest (l1 ++ p' :: l2) w1) as [[ths w2] t].
    simpl in *. unfold granted_rooms in *. simpl.
    rewrite held_app. simpl.
    destruct Hcase as [(R & Hg & -> & -> & Hn)|[(Hg & -> & Hn)|(Hg & -> & -> & Hn)]];
      rewrite Hg; simpl in *; rewrite Hn in IH.
    + (* the room held by this invocation is handed back *)
      destruct IH as [IHnd IHin].
      * now apply NoDup_remove_1 in Hnd.
      * intros R' HR'. apply Hb. apply in_app_or in HR'.
        apply in_or_app. destruct HR'; [now left|right; now right].
      * split.
        -- constructor; [|exact IHnd]. intro Hin.
           destruct (IHin R Hin) as [Hheld|Hge].
           ++ apply NoDup_remove_2 in Hnd. contradiction.
           ++ assert (R < next_room w) by (apply Hb, in_elt). lia.
        -- intros R' [<-|HR'].
           ++ left. apply in_elt.
           ++ destruct (IHin R' HR') as [Hheld|Hge]; [left|now right].
              apply in_app_or in Hheld. apply in_or_app.
              destruct Hheld; [now left|right; now right].
    + (* the holding is unchanged *)
      now apply IH.
    + (* the invocation takes the next room of the sequence *)
      destruct IH as [IHnd IHin].
      * apply (Permutation_NoDup (Permutation_middle _ _ _)).
        constructor; [|exact Hnd]. intro Hin. apply Hb in Hin. lia.
      * intros R HR. apply in_app_or in HR. destruct HR as [HR|[<-|HR]].
        -- assert (R < next_room w) by (apply Hb, in_or_app; now left). lia.
        -- lia.
        -- assert (R < next_room w) by (apply Hb, in_or_app; now right). lia.
      * split; [exact IHnd|]. intros R HR.
        destruct (IHin R HR) as [Hheld|Hge]; [|right; lia].
        apply in_app_or in Hheld. destruct Hheld as [H1|[<-|H2]].
        -- left. apply in_or_app. now left.
        -- right. lia.
        -- left. apply in_or_app. now right.
Qed.

Lemma checkInGuest_holds (generateServiceError : PostgrestError -> ServiceError)
  (request : CheckInGuestRequest) :
  holds (checkInGuest generateServiceError request) None.
Proof.
  cbn. split; [reflexivity|]. split.
  - intros R [e|]; cbn; [exact I|]. split; [reflexivity|exact I].
  - intro e. exact I.
Qed.

(** C9: with the room allocator an atomic sequence, any number of check-ins
    in flight at once, their steps interleaved in any order and the store
    failing or not, hand back pairwise distinct room numbers: no two
    successful replies carry the same room. *)
Theorem concurrent_checkIns_get_distinct_rooms
  (generateServiceError : PostgrestError -> ServiceError)
  (requests : list CheckInGuestRequest) (schedule : list nat) (w : World) :
  NoDup (granted_rooms
           (snd (interleave world_env schedule
                   (map (checkInGuest generateServiceError) requests) w))).
Proof.
  apply (interleave_grants_distinct schedule _ (map (fun _ => None) requests)).
  - induction requests as [|r rs IH]; simpl; constructor;
      [apply checkInGuest_holds|exact IH].
  - rewrite held_none. constructor.
  - rewrite held_none. intros R [].
Qed.

(** Three check-ins against the empty world, interleaved: three rooms. *)
Example three_concurrent_checkIns :
  granted_rooms
    (snd (interleave world_env a_schedule
            (map (checkInGuest generateServiceError_model) three_requests)
            empty_world))
  = [101; 103; 102].
Proof. reflexivity. Qed.

(** ** The copy without console lines *)

Section UnloggedFacts.

Variable generateServiceError : PostgrestError -> ServiceError.
Context {W : Type}.
Variable env : forall X : Type, Eff X -> W -> X * W.

Local Tactic Notation "answer" ident(x) ident(w') :=
  match goal with
  | |- context [env ?X ?op ?w] => destruct (env X op w) as [x w']
  end; cbn.

(** Check-in replies and store calls are those of the logged handler. *)
Lemma unlogged_checkInGuest_replies (w : W) (first last : string) :
  let t := trace env (Unlogged.checkInGuest generateServiceError
                        (mkCheckInGuestRequest first last)) w in
  (exists e, allocations t = [Thrown e] /\ store_log t = [] /\ callbacks t = [])
  \/
  (exists R error,
      allocations t = [Returned R] /\
      store_log t =
        [(CallInsert (toLowerCase first) (toLowerCase last) R, (None, error))] /\
      callbacks t =
        [match error with
         | Some e => (Some (generateServiceError e), None)
         | None => (None, Some (CheckInGuestResponse R))
         end]).
Proof.
  unfold trace, Unlogged.checkInGuest. cbn.
  answer r w1. destruct r as [R|e]; cbn.
  - right. exists R. answer error w2. exists error.
    destruct error as [e|]; cbn; answer u w3; now destruct u.
  - left. now exists e.
Qed.

Lemma unlogged_getGuestByLastNameAndRoom_replies
  (w : W) (last : string) (room : Z) :
  let t := trace env (Unlogged.getGuestByLastNameAndRoom generateServiceError
                        (mkGetGuestRequest last room)) w in
  exists data error,
    store_log t = [(CallSelectSingle (toLowerCase last) room, (data, error))] /\
    callbacks t =
      [match error, data with
       | Some e, _ => (Some (generateServiceError e), None)
       | None, None => (Some NoUserError, None)
       | None, Some row =>
           (None, Some (GuestResponse
                          {| g_id := id row;
                             firstName := first_name row;
                             lastName := last_name row;
                             roomNumber := room_number row;
                             wifiLoginCount := wifi_login_count row |}))
       end].
Proof.
  unfold trace, Unlogged.getGuestByLastNameAndRoom. cbn.
  answer response w1. destruct response as [data error].
  exists data, error.
  destruct error as [e|]; [|destruct data as [row|]]; cbn;
    answer u w2; now destruct u.
Qed.

Lemma unlogged_incrementWifiLoginCount_replies
  (w : W) (last : string) (room : Z) :
  let t := trace env (Unlogged.incrementWifiLoginCount generateServiceError
                        (mkIncrementWifiLoginCountRequest last room)) w in
  exists error,
    store_log t = [(CallRpcIncrement (toLowerCase last) room, (None, error))] /\
    callbacks t =
      [match error with
       | None => (None, Some (IncrementWifiLoginCountResponse true))
       | Some e => (Some (generateServiceError e), None)
       end].
Proof.
  unfold trace, Unlogged.incrementWifiLoginCount. cbn.
  answer error w1. exists error.
  destruct error as [e|]; cbn; answer u w2; now destruct u.
Qed.

(** The lookup of an absent guest ends the same way in this copy. *)
Lemma unlogged_lookup_of_absent_guest :
  callbacks (trace world_env
               (Unlogged.getGuestByLastNameAndRoom generateServiceError
                  (mkGetGuestRequest "nobody" 999)) empty_world)
  = [(Some (generateServiceError (PGRST116 0)), None)].
Proof. reflexivity. Qed.

End UnloggedFacts.

(** ** Concrete runs *)

(** C6 at ("Jane", "DOE") in the empty world: room 101 is allocated, the row
    (jane, doe, 101) is stored, and 101 is the reply. *)
Lemma checkIn_stores_lowercased_names_and_returns_room_witness :
  In (None, Some (CheckInGuestResponse 101))
     (callbacks (trace world_env
                   (checkInGuest generateServiceError_model
                      (mkCheckInGuestRequest "Jane" "DOE")) empty_world)) /\
  allocations (trace world_env
                 (checkInGuest generateServiceError_model
                    (mkCheckInGuestRequest "Jane" "DOE")) empty_world)
  = [Returned 101] /\
  store_log (trace world_env
               (checkInGuest generateServiceError_model
                  (mkCheckInGuestRequest "Jane" "DOE")) empty_world)
  = [(CallInsert "jane" "doe" 101, (None, None))] /\
  callbacks (trace world_env
               (checkInGuest generateServiceError_model
                  (mkCheckInGuestRequest "Jane" "DOE")) empty_world)
  = [(None, Some (CheckInGuestResponse 101))].
Proof.
  split.
  - left. reflexivity.
  - apply (proj1 (checkIn_stores_lowercased_names_and_returns_room
                    generateServiceError_model world_env empty_world)
                 "Jane"%string "DOE"%string 101).
    left. reflexivity.
Defined.

(** C7 at "Smith": checked in as "Smith", looked up as "SMITH". *)
Lemma lookup_after_checkIn_ignores_case_witness :
  casing_variant "Smith" "SMITH" /\
  In (None, Some (CheckInGuestResponse 101))
     (callbacks (trace world_env
                   (checkInGuest generateServiceError_model
                      (mkCheckInGuestRequest "John" "Smith")) empty_world)) /\
  callbacks (trace world_env
               (getGuestByLastNameAndRoom generateServiceError_model
                  (mkGetGuestRequest "SMITH" 101))
               (final world_env
                  (checkInGuest generateServiceError_model
                     (mkCheckInGuestRequest "John" "Smith")) empty_world))
  = [(None, Some (GuestResponse
                    {| g_id := 1; firstName := "john"; lastName := "smith";
                       roomNumber := 101; wifiLoginCount := 0 |}))].
Proof.
  assert (Hcv : casing_variant "Smith" "SMITH")
    by (repeat constructor).
  split; [exact Hcv|]. split; [left; reflexivity|].
  apply (lookup_after_checkIn_ignores_case generateServiceError_model
           empty_world "John" "Smith" "SMITH" 101 Hcv).
  - left. reflexivity.
  - intros r [].
  - reflexivity.
Defined.

(** C5 at [{"event": "guest.checked.out", "data": {}}]. *)
Lemma unrecognized_event_is_ignored_witness :
  Json.parse msg_checked_out
  = Some (JObject [("event"%string, JString "guest.checked.out");
                   ("data"%string, JObject [])]) /\
  outcome world_env (on_message msg_checked_out) empty_world = Returned tt /\
  rpc_calls (trace world_env (on_message msg_checked_out) empty_world) = [] /\
  stderr_lines (trace world_env (on_message msg_checked_out) empty_world) = [].
Proof.
  split; [reflexivity|].
  destruct (unrecognized_event_is_ignored world_env empty_world msg_checked_out
              (JObject [("event"%string, JString "guest.checked.out");
                        ("data"%string, JObject [])])
              (JString "guest.checked.out")
              eq_refl eq_refl)
    as (Ho & Hr & He & _).
  - discriminate.
  - now repeat split.
Defined.

(** C3 at a refused NATS connection. *)
Lemma subscription_failure_stops_bridge_and_is_reported_witness :
  In (ExternalError "CONNECTION_REFUSED")
     (subscription_failures (trace world_env (on_bind None 50051) refused_world)) /\
  consumer_started (trace world_env (on_bind None 50051) refused_world) = false /\
  stderr_lines (trace world_env (on_bind None 50051) refused_world)
  = [("Failed to subscribe to guest events:"%string,
      [LogThrown (ExternalError "CONNECTION_REFUSED")])].
Proof.
  split; [left; reflexivity|].
  apply (proj2 (subscription_failure_stops_bridge_and_is_reported
                  world_env refused_world 50051
                  (ExternalError "CONNECTION_REFUSED"))).
  left. reflexivity.
Defined.

(** C2 as claimed fails: the text [{not json] is not JSON; delivered before a
    recognized event, it ends the loop with a [SyntaxError] and the event
    after it, which on its own leads to an RPC call, is never handled. *)
Lemma malformed_payload_stops_consumption :
  Json.parse msg_not_json = None /\
  outcome world_env (consume [msg_not_json; msg_increment_doe]) empty_world
  = Thrown (SyntaxError "JSON.parse: unexpected token") /\
  rpc_calls (trace world_env (consume [msg_not_json; msg_increment_doe])
               empty_world) = [] /\
  rpc_calls (trace world_env (consume [msg_increment_doe]) empty_world)
  = [(JString "doe", JNumber 101 0)].
Proof. repeat split. Qed.

(** The amended C2 at [recognized; {not json; recognized]. *)
Lemma undecodable_payload_ends_the_loop_witness :
  undecodable msg_not_json (SyntaxError "JSON.parse: unexpected token") /\
  outcome world_env (consume [msg_increment_doe]) empty_world = Returned tt /\
  outcome world_env
    (consume ([msg_increment_doe] ++ msg_not_json :: [msg_increment_doe]))
    empty_world
  = Thrown (SyntaxError "JSON.parse: unexpected token") /\
  rpc_calls (trace world_env
               (consume ([msg_increment_doe] ++ msg_not_json :: [msg_increment_doe]))
               empty_world)
  = rpc_calls (trace world_env (consume [msg_increment_doe]) empty_world).
Proof.
  assert (Hbad : undecodable msg_not_json
                   (SyntaxError "JSON.parse: unexpected token"))
    by (left; split; reflexivity).
  split; [exact Hbad|]. split; [reflexivity|].
  apply (undecodable_payload_ends_the_loop world_env empty_world
           [msg_increment_doe] [msg_increment_doe] msg_not_json _ Hbad).
  reflexivity.
Defined.

(** C4 as claimed fails twice: a tagged message without [data] leads to no
    RPC call at all (reading [lastName] off [undefined] throws), and a
    surname written in capitals is carried as written, not lower-cased. *)
Lemma tagged_event_without_data_or_in_capitals :
  (Json.parse msg_increment_no_data
   = Some (JObject [("event"%string, JString increment_tag)]) /\
   outcome world_env (on_message msg_increment_no_data) empty_world
   = Thrown (TypeError "Cannot read properties of undefined (reading 'lastName')") /\
   rpc_calls (trace world_env (on_message msg_increment_no_data) empty_world) = [])
  /\
  (rpc_calls (trace world_env (on_message msg_increment_DOE) empty_world)
   = [(JString "DOE", JNumber 101 0)] /\
   JString "DOE" <> JString (toLowerCase "DOE")).
Proof. repeat split. discriminate. Qed.

(** The amended C4 at the event carrying "DOE" and room 101. *)
Lemma tagged_event_dispatches_once_witness :
  Json.parse msg_increment_DOE
  = Some (JObject [("event"%string, JString increment_tag);
                   ("data"%string,
                    JObject [("lastName"%string, JString "DOE");
                             ("roomNumber"%string, JNumber 101 0)])]) /\
  exists last room,
    get_prop (JObject [("lastName"%string, JString "DOE");
                       ("roomNumber"%string, JNumber 101 0)]) "lastName"
    = Returned last /\
    get_prop (JObject [("lastName"%string, JString "DOE");
                       ("roomNumber"%string, JNumber 101 0)]) "roomNumber"
    = Returned room /\
    outcome world_env (on_message msg_increment_DOE) empty_world = Returned tt /\
    rpc_calls (trace world_env (on_message msg_increment_DOE) empty_world)
    = [(last, room)].
Proof.
  split; [reflexivity|].
  apply (tagged_event_dispatches_once world_env empty_world msg_increment_DOE
           (JObject [("event"%string, JString increment_tag);
                     ("data"%string,
                      JObject [("lastName"%string, JString "DOE");
                               ("roomNumber"%string, JNumber 101 0)])])
           (JObject [("lastName"%string, JString "DOE");
                     ("roomNumber"%string, JNumber 101 0)])
           eq_refl eq_refl eq_refl).
  - discriminate.
  - discriminate.
Defined.

(** ** Further properties of the service *)

Section ServiceExtras.

Variable generateServiceError : PostgrestError -> ServiceError.
Context {W : Type}.
Variable env : forall X : Type, Eff X -> W -> X * W.

Local Tactic Notation "answer" ident(x) ident(w') :=
  match goal with
  | |- context [env ?X ?op ?w] => destruct (env X op w) as [x w']
  end; cbn.



(** X2: the three handlers cannot tell casing variants of a name apart: with
    the names replaced by casing variants each handler makes the same calls
    and the same reply in every surroundings. *)
Theorem handlers_ignore_letter_case
  (first first' last last' : string) (room : Z) (w : W) :
  casing_variant first first' ->
  casing_variant last last' ->
  run env (checkInGuest generateServiceError
             (mkCheckInGuestRequest first last)) w
  = run env (checkInGuest generateServiceError
               (mkCheckInGuestRequest first' last')) w /\
  run env (getGuestByLastNameAndRoom generateServiceError
             (mkGetGuestRequest last room)) w
  = run env (getGuestByLastNameAndRoom generateServiceError
               (mkGetGuestRequest last' room)) w /\
  run env (incrementWifiLoginCount generateServiceError
             (mkIncrementWifiLoginCountRequest last room)) w
  = run env (incrementWifiLoginCount generateServiceError
               (mkIncrementWifiLoginCountRequest last' room)) w.
Proof.
  intros Hf Hl. apply casing_variant_lower in Hf, Hl.
  unfold checkInGuest, getGuestByLastNameAndRoom, incrementWifiLoginCount.
  cbn [ci_firstName ci_lastName gg_lastName gg_roomNumber iw_lastName iw_roomNumber].
  now rewrite Hf, Hl.
Qed.

(** X3: the two copies of the service differ in console output only: where
    printing has no effect on the surroundings, the copy without console
    lines ends with the same outcome and the same surroundings as the logged
    one, and its trace is the logged trace with the console lines removed. *)
Theorem copies_differ_in_console_lines_only (call : Invocation) (w : W) :
  console_is_neutral env ->
  run env (serve_unlogged generateServiceError call) w
  = (outcome env (serve generateServiceError call) w,
     final env (serve generateServiceError call) w,
     without_console (trace env (serve generateServiceError call) w)).
Proof.
  intro Hn.
  destruct call as [[first last]|[last room]|[last room]];
    unfold outcome, final, trace, serve, serve_unlogged, checkInGuest,
      getGuestByLastNameAndRoom, incrementWifiLoginCount,
      Unlogged.checkInGuest, Unlogged.getGuestByLastNameAndRoom,
      Unlogged.incrementWifiLoginCount; cbn.
  - rewrite Hn. answer r w2. destruct r as [R|e]; cbn; [|reflexivity].
    answer error w3. destruct error as [e|]; cbn.
    + rewrite Hn. answer u w4. reflexivity.
    + answer u w4. rewrite Hn. destruct u. reflexivity.
  - rewrite Hn. answer response w2. destruct response as [data error].
    destruct error as [e|]; [|destruct data as [row|]]; cbn.
    + rewrite Hn. answer u w3. reflexivity.
    + answer u w3. rewrite Hn. destruct u. reflexivity.
    + rewrite Hn. answer u w3. reflexivity.
  - rewrite Hn. answer error w2. destruct error as [e|]; cbn.
    + rewrite Hn. answer u w3. reflexivity.
    + answer u w3. rewrite Hn. destruct u. reflexivity.
Qed.

End ServiceExtras.

Section WorldExtras.
Variable generateServiceError : PostgrestError -> ServiceError.

(** X4: in the reference store a lookup changes no row and replies with a
    guest exactly when the store is reachable and exactly one row has the
    lower-cased surname and the room; that guest is the row, field by field.
    With no such row or with several the reply is the mapped [PGRST116]
    error carrying the number of rows, and with the store unreachable it is
    the mapped outage. *)
Theorem lookup_succeeds_iff_exactly_one_row (w : World) (last : string) (room : Z) :
  let lookup := getGuestByLastNameAndRoom generateServiceError
                  (mkGetGuestRequest last room) in
  let rows := filter (key_matches (toLowerCase last) room) (guests w) in
  callbacks (trace world_env lookup w)
  = [match fst (next_outage w), rows with
     | Some e, _ => (Some (generateServiceError e), None)
     | None, [row] =>
         (None, Some (GuestResponse
                        {| g_id := id row;
                           firstName := first_name row;
                           lastName := last_name row;
                           roomNumber := room_number row;
                           wifiLoginCount := wifi_login_count row |}))
     | None, _ => (Some (generateServiceError (PGRST116 (List.length rows))), None)
     end] /\
  guests (final world_env lookup w) = guests w.
Proof.
  intros lookup rows. unfold lookup, trace, final.
  rewrite run_getGuestByLastNameAndRoom_world. unfold store_select_single.
  destruct (next_outage_keeps w) as (Hg & _ & _).
  destruct (next_outage w) as [[e|] w1]; cbn [fst snd] in *.
  - now split.
  - rewrite Hg. fold rows. unfold single.
    destruct rows as [|row [|row' rest]]; cbn; now split.
Qed.
End WorldExtras.

Section LicenceFacts.
Context {W : Type}.
Variable env : forall X : Type, Eff X -> W -> X * W.

(** One step keeps the licence, or gains one from an accepted insert. *)
Lemma step_licensed (p p' : Prog unit) (s : option Z) (w w' : W) (ev : Event) :
  licensed p s ->
  step env p w = Some (p', w', ev) ->
  exists s',
    licensed p' s' /\
    (forall R, granted_of ev = Some R -> s = Some R) /\
    (s' = s \/ exists R, accepted_of ev = Some R /\ s' = Some R).
Proof.
  assert (Hkeep : forall q : Prog unit,
             licensed q s -> granted_of ev = None -> p' = q ->
             exists s', licensed p' s' /\
                        (forall R, granted_of ev = Some R -> s = Some R) /\
                        (s' = s \/ exists R, accepted_of ev = Some R /\ s' = Some R)).
  { intros q Hq Hg ->. exists s. split; [exact Hq|]. split; [|now left].
    intros R HR. rewrite Hg in HR. discriminate. }
  destruct p as [a|e|X op k]; simpl; try discriminate.
  destruct op as [st text args| |f l r|l r|l r|error value| |subject|subject|l r];
    simpl; intros Hl Hs; destruct (env _ _ w) as [x w1];
    injection Hs as <- <- <-.
  - destruct x. now apply (Hkeep (k tt)).
  - now apply (Hkeep (k x)).
  - destruct Hl as [Hok Herr]. destruct x as [e|].
    + now apply (Hkeep (k (Some e))).
    + exists (Some r). split; [exact Hok|]. split; [discriminate|].
      right. now exists r.
  - now apply (Hkeep (k x)).
  - now apply (Hkeep (k x)).
  - destruct x.
    destruct error as [err|]; [|destruct value as [[R|g|b]|]].
    + now apply (Hkeep (k tt)).
    + destruct Hl as [-> Hk]. exists (Some R). split; [exact Hk|].
      split; [|now left]. intros R' H. cbn in H. now injection H as <-.
    + now apply (Hkeep (k tt)).
    + now apply (Hkeep (k tt)).
    + now apply (Hkeep (k tt)).
  - now apply (Hkeep (k x)).
  - now apply (Hkeep (k x)).
  - destruct x. now apply (Hkeep (k tt)).
  - destruct x. now apply (Hkeep (k tt)).
Qed.

Lemma interleave_grants_after_insert (schedule : list nat) :
  forall (threads : list (Prog unit)) (ss : list (option Z)) (w : W),
    Forall2 licensed threads ss ->
    forall t1 ev t2 R,
      snd (interleave env schedule threads w) = t1 ++ ev :: t2 ->
      granted_of ev = Some R ->
      In R (accepted_rooms t1) \/ In (Some R) ss.
Proof.
  induction schedule as [|i rest IH]; intros threads ss w Hf t1 ev t2 R; simpl.
  - intro H. now destruct t1.
  - destruct (nth_error threads i) as [p|] eqn:Hnth; [|now apply IH].
    destruct (step env p w) as [[[p' w1] ev0]|] eqn:Hstep; [|now apply IH].
    apply nth_error_split in Hnth. destruct Hnth as (l1 & l2 & -> & <-).
    rewrite replace_nth_app.
    apply Forall2_app_inv_l in Hf.
    destruct Hf as (h1 & hr & Hf1 & Hf2 & ->).
    inversion Hf2 as [|p0 s l2' h2 Hp Hf3]; subst.
    destruct (step_licensed _ _ _ _ _ _ Hp Hstep) as (s' & Hp' & Hgr & Hs').
    assert (Hf' : Forall2 licensed (l1 ++ p' :: l2) (h1 ++ s' :: h2)).
    { apply Forall2_app; [exact Hf1|]. now constructor. }
    specialize (IH (l1 ++ p' :: l2) (h1 ++ s' :: h2) w1 Hf').
    destruct (interleave env rest (l1 ++ p' :: l2) w1) as [[ths w2] t].
    simpl in *. intros Ht Hg.
    destruct t1 as [|ev1 t1]; simpl in Ht; injection Ht as Hev Ht; subst.
    + right. rewrite (Hgr R Hg). apply in_elt.
    + destruct (IH t1 ev t2 R eq_refl Hg) as [Hin|Hin].
      * left. unfold accepted_rooms in *. simpl.
        destruct (accepted_of ev1); [now right|exact Hin].
      * apply in_app_or in Hin. destruct Hin as [Hin|[Heq|Hin]].
        -- right. apply in_or_app. now left.
        -- destruct Hs' as [->|(R' & Hacc & ->)].
           ++ right. rewrite Heq. apply in_elt.
           ++ injection Heq as ->. left. unfold accepted_rooms. simpl.
              rewrite Hacc. now left.
        -- right. apply in_or_app. right. now right.
Qed.

Lemma serve_licensed gse (call : Invocation) : licensed (serve gse call) None.
Proof.
  destruct call as [request|request|request]; cbn.
  - intros [R|e]; cbn; [|exact I]. split.
    + split; [reflexivity|exact I].
    + intro e. exact I.
  - intros [data [e|]]; cbn; [exact I|]. destruct data; exact I.
  - intros [e|]; exact I.
Qed.

(** X10: with any calls on the service in flight at once, in any
    interleaving and any surroundings, a room number is handed back in a
    successful check-in reply only after the store has accepted an insert
    with that room number. *)
Theorem room_is_granted_after_its_insert gse
  (calls : list Invocation) (schedule : list nat) (w : W)
  (t1 t2 : list Event) (ev : Event) (R : Z) :
  snd (interleave env schedule (map (serve gse) calls) w) = t1 ++ ev :: t2 ->
  granted_of ev = Some R ->
  In R (accepted_rooms t1).
Proof.
  intros Ht Hg.
  assert (Hf : Forall2 licensed (map (serve gse) calls)
                 (map (fun _ => @None Z) calls)).
  { clear. induction calls as [|c cs IH]; simpl; constructor;
      [apply serve_licensed|exact IH]. }
  destruct (interleave_grants_after_insert schedule _ _ w Hf _ _ _ _ Ht Hg)
    as [H|H]; [exact H|].
  exfalso. clear -H. induction calls as [|c cs IH]; simpl in H; [exact H|].
  destruct H as [H|H]; [discriminate|auto].
Qed.
End LicenceFacts.

Lemma serve_holds gse (call : Invocation) : holds (serve gse call) None.
Proof.
  destruct call as [request|request|request].
  - apply checkInGuest_holds.
  - cbn. intros [data [e|]]; cbn; [exact I|]. destruct data; exact I.
  - cbn. intros [e|]; exact I.
Qed.

(** X11: with the room allocator an atomic sequence, the successful
    check-in replies carry pairwise distinct rooms also when lookups and
    Wi-Fi increments are in flight among the check-ins. *)
Theorem concurrent_service_calls_get_distinct_rooms gse
  (calls : list Invocation) (schedule : list nat) (w : World) :
  NoDup (granted_rooms
           (snd (interleave world_env schedule (map (serve gse) calls) w))).
Proof.
  apply (interleave_grants_distinct schedule _ (map (fun _ => None) calls)).
  - induction calls as [|c cs IH]; simpl; constructor;
      [apply serve_holds|exact IH].
  - rewrite held_none. constructor.
  - rewrite held_none. intros R [].
Qed.

(** ** Further properties of the bridge *)

Section BridgeExtras.

Context {W : Type}.
Variable env : forall X : Type, Eff X -> W -> X * W.

Local Tactic Notation "answer" ident(x) ident(w') :=
  match goal with
  | |- context [env ?X ?op ?w] => destruct (env X op w) as [x w']
  end; cbn.

(** The loop body, case by case. *)
Lemma on_message_run (payload : string) (w : W) :
  match Json.parse payload with
  | None =>
      run env (on_message payload) w
      = (Thrown (SyntaxError "JSON.parse: unexpected token"), w, [])
  | Some v =>
      let log := Console Stdout "Received guest update:" [LogValue v] in
      let u := fst (env unit log w) in
      let w1 := snd (env unit log w) in
      match get_prop v "event" with
      | Thrown e => run env (on_message payload) w = (Thrown e, w1, [Ev log u])
      | Returned tag =>
          if strict_eq_string tag increment_tag then
            match get_prop v "data" with
            | Thrown e =>
                run env (on_message payload) w = (Thrown e, w1, [Ev log u])
            | Returned data =>
                match get_prop data "lastName", get_prop data "roomNumber" with
                | Returned last, Returned room =>
                    let call := ClientIncrementWifiLoginCount last room in
                    run env (on_message payload) w
                    = (Returned (fst (env unit call w1)), snd (env unit call w1),
                       [Ev log u; Ev call (fst (env unit call w1))])
                | Thrown e, _ =>
                    run env (on_message payload) w = (Thrown e, w1, [Ev log u])
                | Returned _, Thrown e =>
                    run env (on_message payload) w = (Thrown e, w1, [Ev log u])
                end
            end
          else run env (on_message payload) w = (Returned tt, w1, [Ev log u])
      end
  end.
Proof.
  unfold on_message, JSON_parse.
  destruct (Json.parse payload) as [v|]; [|reflexivity].
  cbn. destruct (env unit _ w) as [u w1]. cbn.
  destruct (get_prop v "event") as [tag|e]; cbn; [|reflexivity].
  destruct (strict_eq_string tag increment_tag); cbn; [|reflexivity].
  destruct (get_prop v "data") as [data|e]; cbn; [|reflexivity].
  destruct (get_prop data "lastName") as [last|e]; cbn; [|reflexivity].
  destruct (get_prop data "roomNumber") as [room|e]; cbn; [|reflexivity].
  destruct (env unit _ w1) as [u2 w2]. reflexivity.
Qed.

Lemma unit_eta (u : unit) : u = tt.
Proof. now destruct u. Qed.

Lemma on_message_returns_iff (payload : string) (w : W) :
  outcome env (on_message payload) w = Returned tt <-> handled payload.
Proof.
  unfold outcome, handled, ignored, recognized.
  pose proof (on_message_run payload w) as H.
  destruct (Json.parse payload) as [v|].
  2:{ rewrite H. split; [discriminate|].
      intros [(v & tag & Hp & _)|(l & r & v & d & Hp & _)]; discriminate. }
  cbv zeta in H.
  destruct (get_prop v "event") as [tag|e] eqn:He.
  2:{ rewrite H. split; [discriminate|].
      intros [(v' & tag & Hp & He' & _)|(l & r & v' & d & Hp & He' & _)];
        injection Hp as <-; rewrite He in He'; discriminate. }
  destruct (strict_eq_string tag increment_tag) eqn:Ht.
  - apply strict_eq_string_true in Ht. subst tag.
    destruct (get_prop v "data") as [data|e] eqn:Hd.
    2:{ rewrite H. split; [discriminate|].
        intros [(v' & tag & Hp & He' & Hne)|(l & r & v' & d & Hp & _ & Hd' & _)];
          injection Hp as <-.
        - rewrite He in He'. injection He' as <-. now contradiction Hne.
        - rewrite Hd in Hd'. discriminate. }
    destruct (get_prop data "lastName") as [last|e] eqn:Hl.
    + destruct (get_prop data "roomNumber") as [room|e] eqn:Hr.
      * rewrite H. cbn. split; [intros _|intros _; f_equal; apply unit_eta].
        right. exists last, room, v, data. now repeat split.
      * rewrite H. split; [discriminate|].
        intros [(v' & tag & Hp & He' & Hne)|(l & r & v' & d & Hp & _ & Hd' & _ & Hr')];
          injection Hp as <-.
        -- rewrite He in He'. injection He' as <-. now contradiction Hne.
        -- rewrite Hd in Hd'. injection Hd' as <-. rewrite Hr in Hr'. discriminate.
    + rewrite H. split; [discriminate|].
      intros [(v' & tag & Hp & He' & Hne)|(l & r & v' & d & Hp & _ & Hd' & Hl' & _)];
        injection Hp as <-.
      * rewrite He in He'. injection He' as <-. now contradiction Hne.
      * rewrite Hd in Hd'. injection Hd' as <-. rewrite Hl in Hl'. discriminate.
  - rewrite H. cbn. split; [intros _|reflexivity].
    left. exists v, tag. repeat split; trivial.
    intros ->. rewrite (proj2 (strict_eq_string_true _ _) eq_refl) in Ht.
    discriminate.
Qed.

(** The calls of one message: none, or the one a recognized payload asks
    for. *)
Lemma on_message_calls (payload : string) (w : W) :
  rpc_calls (trace env (on_message payload) w) = [] \/
  exists last room,
    recognized payload last room /\
    rpc_calls (trace env (on_message payload) w) = [(last, room)].
Proof.
  unfold trace, recognized.
  pose proof (on_message_run payload w) as H.
  destruct (Json.parse payload) as [v|]; [|rewrite H; now left].
  cbv zeta in H.
  destruct (get_prop v "event") as [tag|e] eqn:He; [|rewrite H; now left].
  destruct (strict_eq_string tag increment_tag) eqn:Ht; [|rewrite H; now left].
  apply strict_eq_string_true in Ht. subst tag.
  destruct (get_prop v "data") as [data|e] eqn:Hd; [|rewrite H; now left].
  destruct (get_prop data "lastName") as [last|e] eqn:Hl; [|rewrite H; now left].
  destruct (get_prop data "roomNumber") as [room|e] eqn:Hr; [|rewrite H; now left].
  right. exists last, room. rewrite H. split; [|reflexivity].
  exists v, data. now repeat split.
Qed.

Lemma recognized_calls (payload : string) (last room : JsValue) (w : W) :
  recognized payload last room ->
  rpc_calls (trace env (on_message payload) w) = [(last, room)].
Proof.
  intros (v & data & Hp & He & Hd & Hl & Hr). unfold trace.
  pose proof (on_message_run payload w) as H.
  rewrite Hp in H. cbv zeta in H. rewrite He in H.
  rewrite (proj2 (strict_eq_string_true _ _) eq_refl) in H.
  rewrite Hd, Hl, Hr in H. now rewrite H.
Qed.

Lemma ignored_calls (payload : string) (w : W) :
  ignored payload -> rpc_calls (trace env (on_message payload) w) = [].
Proof.
  intros (v & tag & Hp & He & Hne). unfold trace.
  pose proof (on_message_run payload w) as H.
  rewrite Hp in H. cbv zeta in H. rewrite He in H.
  rewrite (strict_eq_string_false _ _ Hne) in H. now rewrite H.
Qed.


(** X5: the consumer loop gets through a whole delivery without throwing
    exactly when every payload in it is JSON whose [event] is not the
    recognized tag, or is a recognized event whose [data] can be read. *)
Theorem consume_completes_iff_all_handled (messages : list string) (w : W) :
  outcome env (consume messages) w = Returned tt <-> Forall handled messages.
Proof.
  revert w. induction messages as [|msg rest IH]; intro w.
  - split; [constructor|reflexivity].
  - unfold outcome in *. rewrite run_consume_cons.
    pose proof (on_message_returns_iff msg w) as Hm. unfold outcome in Hm.
    destruct (run env (on_message msg) w) as [[[u|e] w1] t1]; cbn in Hm.
    + specialize (IH w1).
      destruct (run env (consume rest) w1) as [[r w2] t2]. cbn in IH |- *.
      split.
      * intro Hr. constructor; [apply Hm; f_equal; apply unit_eta|now apply IH].
      * intro Hf. inversion Hf; subst. now apply IH.
    + cbn. split; [discriminate|].
      intro Hf. inversion Hf as [|x l Hh Hl]; subst.
      apply Hm in Hh. discriminate.
Qed.

(** X6: over a delivery of recognized and ignored messages the loop ends
    normally and its RPC calls are exactly the name and room of the
    recognized messages, in delivery order. *)
Theorem consume_dispatches_in_delivery_order
  (messages : list string) (calls : list (JsValue * JsValue)) (w : W) :
  delivers messages calls ->
  outcome env (consume messages) w = Returned tt /\
  rpc_calls (trace env (consume messages) w) = calls.
Proof.
  intro Hd. revert w.
  induction Hd as [|payload last room rest calls Hrec _ IH
                    |payload rest calls Hign _ IH]; intro w.
  - now split.
  - unfold outcome, trace in *. rewrite run_consume_cons.
    pose proof (recognized_calls payload last room w Hrec) as Hc.
    pose proof (proj2 (on_message_returns_iff payload w)
                  (or_intror (ex_intro _ last (ex_intro _ room Hrec)))) as Ho.
    unfold outcome, trace in Hc, Ho.
    destruct (run env (on_message payload) w) as [[[u|e] w1] t1];
      cbn in Hc, Ho; [|discriminate].
    specialize (IH w1).
    destruct (run env (consume rest) w1) as [[r w2] t2]. cbn in IH |- *.
    destruct IH as [IHo IHc]. split; [exact IHo|].
    unfold rpc_calls in *. now rewrite collect_app, Hc, IHc.
  - unfold outcome, trace in *. rewrite run_consume_cons.
    pose proof (ignored_calls payload w Hign) as Hc.
    pose proof (proj2 (on_message_returns_iff payload w) (or_introl Hign)) as Ho.
    unfold outcome, trace in Hc, Ho.
    destruct (run env (on_message payload) w) as [[[u|e] w1] t1];
      cbn in Hc, Ho; [|discriminate].
    specialize (IH w1).
    destruct (run env (consume rest) w1) as [[r w2] t2]. cbn in IH |- *.
    destruct IH as [IHo IHc]. split; [exact IHo|].
    unfold rpc_calls in *. now rewrite collect_app, Hc, IHc.
Qed.

(** X7: whatever is delivered, and whether or not the loop ends early, each
    RPC call the loop issues carries the name and room of a recognized
    message of the delivery, and there are no more calls than messages. *)
Theorem consume_calls_stem_from_messages (messages : list string) (w : W) :
  (forall last room,
      In (last, room) (rpc_calls (trace env (consume messages) w)) ->
      exists payload, In payload messages /\ recognized payload last room) /\
  (List.length (rpc_calls (trace env (consume messages) w))
   <= List.length messages)%nat.
Proof.
  revert w. induction messages as [|msg rest IH]; intro w.
  - split; [intros l r []|apply le_n].
  - unfold trace in *. rewrite run_consume_cons.
    pose proof (on_message_calls msg w) as Hm. unfold trace in Hm.
    destruct (run env (on_message msg) w) as [[[u|e] w1] t1]; cbn in Hm.
    + specialize (IH w1).
      destruct (run env (consume rest) w1) as [[r w2] t2]. cbn in IH |- *.
      destruct IH as [IHin IHlen]. unfold rpc_calls in *.
      rewrite collect_app, length_app.
      destruct Hm as [Hm|(l & r' & Hrec & Hm)]; rewrite Hm; cbn; split.
      * intros last room Hin. destruct (IHin _ _ Hin) as (p & Hp & Hr).
        exists p. split; [now right|exact Hr].
      * lia.
      * intros last room [Heq|Hin].
        -- injection Heq as <- <-. exists msg. split; [now left|exact Hrec].
        -- destruct (IHin _ _ Hin) as (p & Hp & Hr).
           exists p. split; [now right|exact Hr].
      * lia.
    + cbn. destruct Hm as [Hm|(l & r' & Hrec & Hm)]; rewrite Hm; cbn; split.
      * intros last room [].
      * lia.
      * intros last room [Heq|[]]. injection Heq as <- <-.
        exists msg. split; [now left|exact Hrec].
      * lia.
Qed.



End BridgeExtras.

(** ** Further concrete runs *)

(** X2 at Jane Doe against JANE dOE. *)
Lemma handlers_ignore_letter_case_witness :
  casing_variant "Jane" "JANE" /\
  casing_variant "Doe" "dOE" /\
  run world_env (getGuestByLastNameAndRoom generateServiceError_model
                   (mkGetGuestRequest "Doe" 101)) empty_world
  = run world_env (getGuestByLastNameAndRoom generateServiceError_model
                     (mkGetGuestRequest "dOE" 101)) empty_world.
Proof.
  assert (H1 : casing_variant "Jane" "JANE") by (repeat constructor).
  assert (H2 : casing_variant "Doe" "dOE") by (repeat constructor).
  split; [exact H1|]. split; [exact H2|].
  apply (handlers_ignore_letter_case generateServiceError_model world_env
           "Jane" "JANE" "Doe" "dOE" 101 empty_world H1 H2).
Defined.

(** X3 in the reference world, where printing changes nothing. *)
Lemma copies_differ_in_console_lines_only_witness :
  console_is_neutral world_env /\
  run world_env
    (serve_unlogged generateServiceError_model
       (InvokeCheckInGuest (mkCheckInGuestRequest "Jane" "DOE"))) empty_world
  = (Returned tt,
     final world_env
       (serve generateServiceError_model
          (InvokeCheckInGuest (mkCheckInGuestRequest "Jane" "DOE"))) empty_world,
     [Ev GenerateRoomNumber (Returned 101);
      Ev (GuestsInsert "jane" "doe" 101) None;
      Ev (Callback None (Some (CheckInGuestResponse 101))) tt]).
Proof.
  assert (Hn : console_is_neutral world_env) by (intros st text args w; reflexivity).
  split; [exact Hn|].
  exact (copies_differ_in_console_lines_only generateServiceError_model world_env
           (InvokeCheckInGuest (mkCheckInGuestRequest "Jane" "DOE"))
           empty_world Hn).
Defined.

Lemma msg_checked_out_ignored : ignored msg_checked_out.
Proof.
  exists (JObject [("event"%string, JString "guest.checked.out");
                   ("data"%string, JObject [])]), (JString "guest.checked.out").
  repeat split. discriminate.
Defined.

Lemma msg_increment_doe_recognized :
  recognized msg_increment_doe (JString "doe") (JNumber 101 0).
Proof.
  exists (JObject [("event"%string, JString increment_tag);
                   ("data"%string,
                    JObject [("lastName"%string, JString "doe");
                             ("roomNumber"%string, JNumber 101 0)])]),
         (JObject [("lastName"%string, JString "doe");
                   ("roomNumber"%string, JNumber 101 0)]).
  repeat split.
Defined.

Lemma msg_increment_DOE_recognized :
  recognized msg_increment_DOE (JString "DOE") (JNumber 101 0).
Proof.
  exists (JObject [("event"%string, JString increment_tag);
                   ("data"%string,
                    JObject [("lastName"%string, JString "DOE");
                             ("roomNumber"%string, JNumber 101 0)])]),
         (JObject [("lastName"%string, JString "DOE");
                   ("roomNumber"%string, JNumber 101 0)]).
  repeat split.
Defined.

(** X5 at an ignored message followed by a recognized one. *)
Lemma consume_completes_iff_all_handled_witness :
  Forall handled [msg_checked_out; msg_increment_doe] /\
  outcome world_env (consume [msg_checked_out; msg_increment_doe]) empty_world
  = Returned tt.
Proof.
  assert (H : Forall handled [msg_checked_out; msg_increment_doe]).
  { constructor; [left; exact msg_checked_out_ignored|].
    constructor; [|constructor].
    right. exists (JString "doe"), (JNumber 101 0).
    exact msg_increment_doe_recognized. }
  split; [exact H|].
  exact (proj2 (consume_completes_iff_all_handled world_env
                  [msg_checked_out; msg_increment_doe] empty_world) H).
Defined.

(** X6 at ignored, DOE, doe. *)
Lemma consume_dispatches_in_delivery_order_witness :
  delivers [msg_checked_out; msg_increment_DOE; msg_increment_doe]
           [(JString "DOE", JNumber 101 0); (JString "doe", JNumber 101 0)] /\
  outcome world_env
    (consume [msg_checked_out; msg_increment_DOE; msg_increment_doe]) empty_world
  = Returned tt /\
  rpc_calls (trace world_env
               (consume [msg_checked_out; msg_increment_DOE; msg_increment_doe])
               empty_world)
  = [(JString "DOE", JNumber 101 0); (JString "doe", JNumber 101 0)].
Proof.
  assert (H : delivers [msg_checked_out; msg_increment_DOE; msg_increment_doe]
                [(JString "DOE", JNumber 101 0); (JString "doe", JNumber 101 0)]).
  { apply delivers_ignored; [exact msg_checked_out_ignored|].
    apply delivers_recognized; [exact msg_increment_DOE_recognized|].
    apply delivers_recognized; [exact msg_increment_doe_recognized|].
    constructor. }
  split; [exact H|].
  exact (consume_dispatches_in_delivery_order world_env _ _ empty_world H).
Defined.

(** X7 at a recognized message followed by text that is not JSON. *)
Lemma consume_calls_stem_from_messages_witness :
  In (JString "doe", JNumber 101 0)
     (rpc_calls (trace world_env (consume [msg_increment_doe; msg_not_json])
                   empty_world)) /\
  exists payload,
    In payload [msg_increment_doe; msg_not_json] /\
    recognized payload (JString "doe") (JNumber 101 0).
Proof.
  assert (H : In (JString "doe", JNumber 101 0)
                (rpc_calls (trace world_env
                              (consume [msg_increment_doe; msg_not_json])
                              empty_world)))
    by (left; reflexivity).
  split; [exact H|].
  exact (proj1 (consume_calls_stem_from_messages world_env
                  [msg_increment_doe; msg_not_json] empty_world)
               (JString "doe") (JNumber 101 0) H).
Defined.

(** X10 at one check-in run to its end. *)
Lemma room_is_granted_after_its_insert_witness :
  snd (interleave world_env [0; 0; 0; 0; 0]%nat
         (map (serve generateServiceError_model)
              [InvokeCheckInGuest (mkCheckInGuestRequest "Jane" "DOE")])
         empty_world)
  = [Ev (Console Stdout "Check-in request received" []) tt;
     Ev GenerateRoomNumber (Returned 101);
     Ev (GuestsInsert "jane" "doe" 101) None]
    ++ Ev (Callback None (Some (CheckInGuestResponse 101))) tt
    :: [Ev (Console Stdout "Check-in response sent" []) tt] /\
  In 101 (accepted_rooms
            [Ev (Console Stdout "Check-in request received" []) tt;
             Ev GenerateRoomNumber (Returned 101);
             Ev (GuestsInsert "jane" "doe" 101) None]).
Proof.
  split; [reflexivity|].
  apply (room_is_granted_after_its_insert world_env generateServiceError_model
           [InvokeCheckInGuest (mkCheckInGuestRequest "Jane" "DOE")]
           [0; 0; 0; 0; 0]%nat empty_world
           [Ev (Console Stdout "Check-in request received" []) tt;
            Ev GenerateRoomNumber (Returned 101);
            Ev (GuestsInsert "jane" "doe" 101) None]
           [Ev (Console Stdout "Check-in response sent" []) tt]
           (Ev (Callback None (Some (CheckInGuestResponse 101))) tt) 101).
  - reflexivity.
  - reflexivity.
Defined.
